(** * DatasetLoom, chat service: pagination of chat listings and dataset export

    A shallow embedding of [apps/api/src/chat/chat.service.ts]:
    [getChatsByUserId] (cursor pagination with overscan and trim),
    [getMessagesByChatId] and [exportChatDataset] (formatting of the stored
    messages, the two archive entries, cleanup of the destination file).

    The service is written against collaborators that are not part of it:
    the Prisma client, the Node runtime ([JSON.parse], [path.join],
    [os.tmpdir], [fs]) and the archiver.  They are modelled here by what the
    service relies on; each model says so where it is declared. *)

From Stdlib Require Import ZArith List String Ascii Bool Lia Sorted Permutation.
From stdpp Require Import gmap strings.
Import ListNotations.

Set Warnings "-register-all".
Local Open Scope string_scope.
Local Open Scope list_scope.
Local Open Scope Z_scope.

(** ** Data model *)

(** [ChatVisibilityType] of [@repo/shared-types]. *)
Inductive ChatVisibilityType : Type := PRIVATE | PUBLIC.

Definition visibility_eqb (a b : ChatVisibilityType) : bool :=
  match a, b with
  | PRIVATE, PRIVATE | PUBLIC, PUBLIC => true
  | _, _ => false
  end.

(** A row of the [chat] table.  [chat_createdAt] is the row's timestamp, an
    integer number of milliseconds. *)
Record Chat : Type := {
  chat_id : string;
  chat_title : string;
  chat_userId : string;
  chat_projectId : string;
  chat_visibility : ChatVisibilityType;
  chat_createdAt : Z
}.

(** A row of the [chatMessages] table; [msg_parts] is the serialized parts
    array, exactly as stored. *)
Record ChatMessages : Type := {
  msg_id : string;
  msg_chatId : string;
  msg_role : string;
  msg_parts : string;
  msg_createdAt : Z
}.

(** [PaginationParams].  An optional string is [None] when the caller passes
    [undefined] or [null]; [limit] is an integer. *)
Record PaginationParams : Type := {
  id : string;
  projectId : string;
  limit : Z;
  startingAfter : option string;
  endingBefore : option string
}.

(** Values of the runtime, as far as the service handles them: what
    [JSON.parse] produces, plus [undefined]. An object is the list of its own
    properties. *)
Inductive jsval : Type :=
| JUndefined
| JNull
| JBool (b : bool)
| JNumber (lexeme : string)
| JString (s : string)
| JArray (items : list jsval)
| JObject (props : list (string * jsval)).

(** What the service can throw or pass on. *)
Inductive exn : Type :=
| Error (message : string)      (* [new Error(message)] *)
| SyntaxError                   (* raised by [JSON.parse] *)
| TypeError                     (* property read or call on a value that has none *)
| Rejected (reason : string).   (* a collaborator's promise rejected *)

Inductive result (A : Type) : Type :=
| Ok (a : A)
| Throw (e : exn).
Arguments Ok {A} a.
Arguments Throw {A} e.

(** ** The world the service runs in *)

(** One entry of an archive: its name and the value handed over for it. *)
Definition entry : Type := string * jsval.

(** A file written through the archiver: the entries appended so far and
    whether the archive has been finalized. *)
Record File : Type := {
  file_entries : list entry;
  file_finalized : bool
}.

(** What the export's collaborators decide: their rejections, and when the
    write stream gets to open its file.  [None] everywhere is the world in
    which the store and the archiver do their work; [fault_open_late] is
    false when the file is open before the first step of the export
    resumes. *)
Record Faults : Type := {
  fault_messages : option exn;            (* [prisma.chatMessages.findMany] *)
  fault_addJson : string -> option exn;   (* [ExportUtil.addJsonToArchive], per entry name *)
  fault_finalize : option exn;            (* [archive.finalize] *)
  fault_open_late : bool                  (* the stream opens only once the call has settled *)
}.

Definition no_faults : Faults :=
  {| fault_messages := None; fault_addJson := fun _ => None; fault_finalize := None;
     fault_open_late := false |}.

Record World : Type := {
  chats : list Chat;                  (* the [chat] table, in storage order *)
  chatMessages : list ChatMessages;   (* the [chatMessages] table *)
  files : gmap string File;           (* the file system, by path *)
  console : list string;              (* lines written by [console.error] *)
  faults : Faults
}.

Definition set_files (f : gmap string File) (w : World) : World :=
  {| chats := chats w; chatMessages := chatMessages w; files := f;
     console := console w; faults := faults w |}.

Definition set_console (c : list string) (w : World) : World :=
  {| chats := chats w; chatMessages := chatMessages w; files := files w;
     console := c; faults := faults w |}.

(** ** Computations: state of the world, and exceptions

    A throw keeps the effects made before it, as in the source. *)
Definition M (A : Type) : Type := World -> result A * World.

Definition ret {A} (a : A) : M A := fun w => (Ok a, w).

Definition throw {A} (e : exn) : M A := fun w => (Throw e, w).

Definition bind {A B} (m : M A) (k : A -> M B) : M B :=
  fun w => match m w with
           | (Ok a, w') => k a w'
           | (Throw e, w') => (Throw e, w')
           end.

(** [try { body } catch (error) { handler }]. *)
Definition try_catch {A} (body : M A) (handler : exn -> M A) : M A :=
  fun w => match body w with
           | (Ok a, w') => (Ok a, w')
           | (Throw e, w') => handler e w'
           end.

(** [promise.catch(() => value)]. *)
Definition catch_with {A} (m : M A) (value : A) : M A :=
  try_catch m (fun _ => ret value).

Notation "x <- m ;; k" := (bind m (fun x => k))
  (at level 100, m at next level, right associativity).
Notation "m ;;; k" := (bind m (fun _ => k))
  (at level 100, right associativity).

Definition console_error (line : string) : M unit :=
  fun w => (Ok tt, set_console (console w ++ [line]) w).

(** ** The record store

    Modelled from the Prisma client's contract: [findUnique] is a point
    lookup on the primary key, [findMany] filters by [where], orders by
    [createdAt] and keeps [take] rows.  The order among rows of equal
    [createdAt] is left open by the store; the model keeps storage order
    (the sort is stable). *)

Section Sort.
Context {A : Type} (before : A -> A -> bool).

Fixpoint insert_row (a : A) (l : list A) : list A :=
  match l with
  | [] => [a]
  | b :: l' => if before a b then a :: b :: l' else b :: insert_row a l'
  end.

Fixpoint sort_rows (l : list A) : list A :=
  match l with
  | [] => []
  | a :: l' => insert_row a (sort_rows l')
  end.
End Sort.

(** [orderBy: { createdAt: 'desc' }] on chats. *)
Definition newer_first (a b : Chat) : bool := chat_createdAt b <=? chat_createdAt a.
Definition orderBy_createdAt_desc : list Chat -> list Chat := sort_rows newer_first.

(** [orderBy: { createdAt: 'asc' }] on messages. *)
Definition older_first (a b : ChatMessages) : bool := msg_createdAt a <=? msg_createdAt b.
Definition orderBy_createdAt_asc : list ChatMessages -> list ChatMessages :=
  sort_rows older_first.

(** [take: n]: the first [n] rows; a negative [n] takes from the end of the
    ordered rows. *)
Definition take_rows {A} (n : Z) (l : list A) : list A :=
  if 0 <=? n then firstn (Z.to_nat n) l
  else skipn (length l - Z.to_nat (- n))%nat l.

Definition chat_findUnique (cid : string) : M (option Chat) :=
  fun w => (Ok (find (fun c => String.eqb (chat_id c) cid) (chats w)), w).

Definition chat_findMany (where_ : Chat -> bool) (take : Z) : M (list Chat) :=
  fun w => (Ok (take_rows take (orderBy_createdAt_desc (List.filter where_ (chats w)))), w).

Definition chatMessages_findMany (where_ : ChatMessages -> bool) : M (list ChatMessages) :=
  fun w => match fault_messages (faults w) with
           | Some e => (Throw e, w)
           | None => (Ok (orderBy_createdAt_asc (List.filter where_ (chatMessages w))), w)
           end.

(** ** getChatsByUserId *)

(** [chats.slice(0, end)]. *)
Definition slice0 {A} (l : list A) (end_ : Z) : list A :=
  if 0 <=? end_ then firstn (Z.to_nat end_) l
  else firstn (length l - Z.to_nat (- end_))%nat l.

(** The test [if (s)] on an optional string: [undefined], [null] and the
    empty string do not pass. *)
Definition truthy (s : option string) : option string :=
  match s with
  | Some EmptyString => None
  | Some s' => Some s'
  | None => None
  end.

(** [baseWhere]: the two alternatives of [OR]. *)
Definition baseWhere (id projectId : string) (c : Chat) : bool :=
  (String.eqb (chat_userId c) id && String.eqb (chat_projectId c) projectId)
  || (visibility_eqb (chat_visibility c) PUBLIC && String.eqb (chat_projectId c) projectId).

(** The value returned to the caller. *)
Record Page : Type := {
  page_chats : list Chat;
  hasMore : bool
}.

Definition not_found_message (cursor : string) : string :=
  ("Chat with id " ++ cursor ++ " not found")%string.

Definition getChatsByUserId (p : PaginationParams) : M Page :=
  try_catch
    (let extendedLimit := limit p + 1 in
     let baseWhere := baseWhere (id p) (projectId p) in
     chats <-
       match truthy (startingAfter p) with
       | Some startingAfter =>
           cursorChat <- chat_findUnique startingAfter ;;
           match cursorChat with
           | None => throw (Error (not_found_message startingAfter))
           | Some cursorChat =>
               chat_findMany
                 (fun c => baseWhere c && (chat_createdAt cursorChat <? chat_createdAt c))
                 extendedLimit
           end
       | None =>
           match truthy (endingBefore p) with
           | Some endingBefore =>
               cursorChat <- chat_findUnique endingBefore ;;
               match cursorChat with
               | None => throw (Error (not_found_message endingBefore))
               | Some cursorChat =>
                   chat_findMany
                     (fun c => baseWhere c && (chat_createdAt c <? chat_createdAt cursorChat))
                     extendedLimit
               end
           | None => chat_findMany baseWhere extendedLimit
           end
       end ;;
     let hasMore := Z.of_nat (length chats) >? limit p in
     ret {| page_chats := if hasMore then slice0 chats (limit p) else chats;
            hasMore := hasMore |})
    (fun error =>
       console_error "Failed to get chats by user from database" ;;;
       throw error).

(** ** Reading the stored parts *)

(** Pure steps that can throw; [bind] of [result]. *)
Definition and_then {A B} (r : result A) (k : A -> result B) : result B :=
  match r with
  | Ok a => k a
  | Throw e => Throw e
  end.

Definition lift {A} (r : result A) : M A := fun w => (r, w).

(** An object's own property, [undefined] when it has none of that name. *)
Definition own_prop (key : string) (props : list (string * jsval)) : jsval :=
  match find (fun kv => String.eqb (fst kv) key) props with
  | Some kv => snd kv
  | None => JUndefined
  end.

(** [v.key], for the keys the service reads ([type], [text]), which no
    prototype defines: reading from [undefined] or [null] throws, a primitive
    or an array has no such property. *)
Definition get_prop (v : jsval) (key : string) : result jsval :=
  match v with
  | JUndefined | JNull => Throw TypeError
  | JObject props => Ok (own_prop key props)
  | JBool _ | JNumber _ | JString _ | JArray _ => Ok JUndefined
  end.

(** [v === s] for a string literal [s]. *)
Definition strict_eq_string (v : jsval) (s : string) : bool :=
  match v with
  | JString s' => String.eqb s' s
  | _ => false
  end.

(** The test [if (v)]. The number test reads the lexeme of zero. *)
Definition js_truthy (v : jsval) : bool :=
  match v with
  | JUndefined | JNull => false
  | JBool b => b
  | JNumber n => negb (String.eqb n "0" || String.eqb n "-0")
  | JString s => negb (String.eqb s EmptyString)
  | JArray _ | JObject _ => true
  end.

(** [Array.prototype.find]: the first item the callback accepts, [undefined]
    when there is none; a throw of the callback ends the search. *)
Fixpoint array_find (cb : jsval -> result bool) (items : list jsval) : result jsval :=
  match items with
  | [] => Ok JUndefined
  | x :: rest =>
      match cb x with
      | Throw e => Throw e
      | Ok true => Ok x
      | Ok false => array_find cb rest
      end
  end.

(** [parts.find(cb)]: of the values [JSON.parse] produces only an array has a
    callable [find]; on anything else the call throws. *)
Definition call_find (parts : jsval) (cb : jsval -> result bool) : result jsval :=
  match parts with
  | JArray items => array_find cb items
  | _ => Throw TypeError
  end.

(** [Array.prototype.map] with a callback that can throw. *)
Fixpoint array_map {A B} (cb : A -> result B) (l : list A) : result (list B) :=
  match l with
  | [] => Ok []
  | x :: rest =>
      and_then (cb x) (fun y =>
      and_then (array_map cb rest) (fun ys => Ok (y :: ys)))
  end.

(** ** The runtime

    [JSON.parse] ([None] when it throws its [SyntaxError]), [os.tmpdir()]
    and [path.join] belong to Node; the service is modelled over any
    runtime. *)
Class Runtime : Type := {
  JSON_parse : string -> option jsval;
  tmpdir : string;
  join : string -> string -> string
}.

(** The value returned by [exportChatDataset]. *)
Record Exported : Type := {
  filePath : string;
  filename : string
}.

Definition empty_file : File := {| file_entries := []; file_finalized := false |}.

Definition add_entry (e : entry) (f : File) : File :=
  {| file_entries := file_entries f ++ [e]; file_finalized := file_finalized f |}.

Definition finalized (f : File) : File :=
  {| file_entries := file_entries f; file_finalized := true |}.

(** ** The archive and the stream it is piped to

    [exportChatDataset] holds two objects of its own, the archive and the
    write stream: what the archive has been handed so far is kept beside the
    world while the export runs. *)
Definition MX (A : Type) : Type := World * File -> result A * (World * File).

Definition retX {A} (a : A) : MX A := fun s => (Ok a, s).

Definition throwX {A} (e : exn) : MX A := fun s => (Throw e, s).

Definition bindX {A B} (m : MX A) (k : A -> MX B) : MX B :=
  fun s => match m s with
           | (Ok a, s') => k a s'
           | (Throw e, s') => (Throw e, s')
           end.

Definition try_catchX {A} (body : MX A) (handler : exn -> MX A) : MX A :=
  fun s => match body s with
           | (Ok a, s') => (Ok a, s')
           | (Throw e, s') => handler e s'
           end.

(** A computation on the world, run during an export. *)
Definition liftX {A} (m : M A) : MX A :=
  fun s => match m (fst s) with
           | (r, w') => (r, (w', snd s))
           end.

Notation "x <~ m ;; k" := (bindX m (fun x => k))
  (at level 100, m at next level, right associativity).
Notation "m ;;~ k" := (bindX m (fun _ => k))
  (at level 100, right associativity).

(** [createWriteStream(path)].  The stream opens its file on its own, after
    the call that created it has gone on: before the first step of the export
    resumes, or only once the export has settled ([fault_open_late]).  The
    open creates the file, empty. *)
Definition createWriteStream (path : string) : M unit :=
  fun w => if fault_open_late (faults w)
           then (Ok tt, w)
           else (Ok tt, set_files (<[path := empty_file]> (files w)) w).

(** The open of a stream that was late: the file is created and receives what
    the stream has been handed until then. *)
Definition open_settles (path : string) (handed : File) (w : World) : World :=
  if fault_open_late (faults w)
  then set_files (<[path := handed]> (files w)) w
  else w.

(** [archiver('zip', ...)] and [archive.pipe(output)]: an empty archive. *)
Definition archiver : MX unit := fun s => (Ok tt, (fst s, empty_file)).

(** What is handed to the archive reaches the file at [dest] while the
    stream has it open and the file is still linked there. *)
Definition piped (change : File -> File) (dest : string) : MX unit :=
  fun s =>
    let w := fst s in
    (Ok tt,
     (if fault_open_late (faults w) then w
      else set_files (alter change dest (files w)) w,
      change (snd s))).

(** Modelled from the spec: [ExportUtil.addJsonToArchive] of
    [@/utils/export.util] is not among the sources.  The spec's archive
    builder has [addJson(name, payload)], which serializes the payload and
    adds it as a named entry; the archive is piped to the stream of [dest].
    The call can be rejected. *)
Definition addJsonToArchive (dest name : string) (data : jsval) : MX unit :=
  fun s => match fault_addJson (faults (fst s)) name with
           | Some e => (Throw e, s)
           | None => piped (add_entry (name, data)) dest s
           end.

(** [archive.finalize()]. *)
Definition archive_finalize (dest : string) : MX unit :=
  fun s => match fault_finalize (faults (fst s)) with
           | Some e => (Throw e, s)
           | None => piped finalized dest s
           end.

(** [fs.unlink(path)]: rejects when there is no such file. *)
Definition fs_unlink (path : string) : M unit :=
  fun w => match files w !! path with
           | Some _ => (Ok tt, set_files (delete path (files w)) w)
           | None => (Throw (Rejected "ENOENT"), w)
           end.

(** ** getMessagesByChatId

    The source's [try] encloses only the creation of the query's promise,
    which is returned without [await]: a rejection reaches the caller without
    passing through the [catch]. *)
Definition getMessagesByChatId (id : string) : M (list ChatMessages) :=
  chatMessages_findMany (fun m => String.eqb (msg_chatId m) id).

(** ** exportChatDataset *)

Section Exporting.
Context `{Runtime}.

(** The callback of [chatData.map]. *)
Definition format_item (item : ChatMessages) : result jsval :=
  match JSON_parse (msg_parts item) with
  | None => Throw SyntaxError
  | Some parts =>
      and_then
        (call_find parts (fun part =>
           and_then (get_prop part "type") (fun type_ =>
           Ok (strict_eq_string type_ "text"))))
        (fun found =>
      and_then (get_prop found "text") (fun text =>
      Ok (JObject [("from", JString (if String.eqb (msg_role item) "user"
                                     then "human" else "gpt"));
                   ("value", text)])))
  end.

Definition export_filename (projectId chatId : string) : string :=
  ("DatasetLoom-" ++ projectId ++ "-" ++ chatId ++ ".zip")%string.

Definition dataset_filename (chatId : string) : string :=
  ("chat_" ++ chatId ++ "_dataset.json")%string.

Definition dataset_info (datasetFilename : string) : jsval :=
  JObject [("DatasetLoom",
            JObject [("file_name", JString datasetFilename);
                     ("formatting", JString "sharegpt");
                     ("columns", JObject [("messages", JString "conversations")])])].

(** The body of the [try]. *)
Definition export_steps (zipPath filename chatId : string) : MX Exported :=
  chatData <~ liftX (getMessagesByChatId chatId) ;;
  formattedData <~ liftX (lift (array_map format_item chatData)) ;;
  let dataset := JObject [("conversations", JArray formattedData)] in
  let datasetFilename := dataset_filename chatId in
  addJsonToArchive zipPath datasetFilename dataset ;;~
  let datasetInfo := dataset_info datasetFilename in
  (if js_truthy datasetInfo
   then addJsonToArchive zipPath "dataset_info.json" datasetInfo
   else retX tt) ;;~
  archive_finalize zipPath ;;~
  retX {| filePath := zipPath; filename := filename |}.

(** The [catch]: best-effort removal of the destination, then the same
    error again. *)
Definition export_cleanup (zipPath : string) (error : exn) : MX Exported :=
  liftX (catch_with (fs_unlink zipPath) tt) ;;~
  throwX error.

(** The call, and after it the open of the stream if that is still to
    come: the world returned is the one in which the stream has opened. *)
Definition exportChatDataset (projectId chatId : string) : M Exported :=
  let filename := export_filename projectId chatId in
  let zipPath := join tmpdir filename in
  fun w =>
    match (liftX (createWriteStream zipPath) ;;~
           archiver ;;~
           try_catchX (export_steps zipPath filename chatId) (export_cleanup zipPath))
            (w, empty_file) with
    | (r, (w', handed)) => (r, open_settles zipPath handed w')
    end.
End Exporting.

(** ** A runtime to run the service on

    A reader for JSON texts: white space, the three literals, numbers kept
    as their lexeme, strings with the one-letter escapes, arrays and objects
    (a repeated key keeps its last value).  It stands for [JSON.parse] where
    the service is run on concrete rows. *)

Inductive token : Type :=
| TLBracket | TRBracket | TLBrace | TRBrace | TComma | TColon
| TString (s : string)
| TNumber (lexeme : string)
| TTrue | TFalse | TNull.

Definition dquote : ascii := "034"%char.
Definition backslash : ascii := "092"%char.

Definition is_space (c : ascii) : bool :=
  let n := nat_of_ascii c in
  (n =? 32)%nat || (n =? 9)%nat || (n =? 10)%nat || (n =? 13)%nat.

Definition is_digit (c : ascii) : bool :=
  let n := nat_of_ascii c in (48 <=? n)%nat && (n <=? 57)%nat.

Definition is_number_char (c : ascii) : bool :=
  is_digit c || Ascii.eqb c "-" || Ascii.eqb c "+" || Ascii.eqb c "."
  || Ascii.eqb c "e" || Ascii.eqb c "E".

Definition unescape (c : ascii) : option ascii :=
  if Ascii.eqb c dquote then Some dquote
  else if Ascii.eqb c backslash then Some backslash
  else if Ascii.eqb c "/" then Some "/"%char
  else if Ascii.eqb c "n" then Some "010"%char
  else if Ascii.eqb c "t" then Some "009"%char
  else if Ascii.eqb c "r" then Some "013"%char
  else if Ascii.eqb c "b" then Some "008"%char
  else if Ascii.eqb c "f" then Some "012"%char
  else None.

(** The characters of a string literal after its opening quote, and what
    follows the closing one. *)
Fixpoint lex_string (cs : list ascii) : option (string * list ascii) :=
  match cs with
  | [] => None
  | c :: rest =>
      if Ascii.eqb c dquote then Some (EmptyString, rest)
      else if Ascii.eqb c backslash then
        match rest with
        | e :: rest' =>
            match unescape e, lex_string rest' with
            | Some c', Some (s, r) => Some (String c' s, r)
            | _, _ => None
            end
        | [] => None
        end
      else if (nat_of_ascii c <? 32)%nat then None
      else match lex_string rest with
           | Some (s, r) => Some (String c s, r)
           | None => None
           end
  end.

Fixpoint span_number (cs : list ascii) : string * list ascii :=
  match cs with
  | c :: rest =>
      if is_number_char c
      then let (s, r) := span_number rest in (String c s, r)
      else (EmptyString, cs)
  | [] => (EmptyString, [])
  end.

Definition push_token (t : token) (r : option (list token)) : option (list token) :=
  match r with
  | Some ts => Some (t :: ts)
  | None => None
  end.

Fixpoint lex (fuel : nat) (cs : list ascii) : option (list token) :=
  match fuel with
  | O => None
  | S fuel' =>
      match cs with
      | [] => Some []
      | c :: rest =>
          if is_space c then lex fuel' rest
          else if Ascii.eqb c "[" then push_token TLBracket (lex fuel' rest)
          else if Ascii.eqb c "]" then push_token TRBracket (lex fuel' rest)
          else if Ascii.eqb c "{" then push_token TLBrace (lex fuel' rest)
          else if Ascii.eqb c "}" then push_token TRBrace (lex fuel' rest)
          else if Ascii.eqb c "," then push_token TComma (lex fuel' rest)
          else if Ascii.eqb c ":" then push_token TColon (lex fuel' rest)
          else if Ascii.eqb c dquote then
            match lex_string rest with
            | Some (s, rest') => push_token (TString s) (lex fuel' rest')
            | None => None
            end
          else if is_digit c || Ascii.eqb c "-" then
            let (n, rest') := span_number cs in
            push_token (TNumber n) (lex fuel' rest')
          else
            match cs with
            | "t" :: "r" :: "u" :: "e" :: rest' => push_token TTrue (lex fuel' rest')
            | "f" :: "a" :: "l" :: "s" :: "e" :: rest' => push_token TFalse (lex fuel' rest')
            | "n" :: "u" :: "l" :: "l" :: rest' => push_token TNull (lex fuel' rest')
            | _ => None
            end
      end
  end%char.

(** Assignment of a property while an object is read: a repeated key keeps
    its place and takes the new value. *)
Fixpoint set_prop (key : string) (v : jsval) (props : list (string * jsval))
  : list (string * jsval) :=
  match props with
  | [] => [(key, v)]
  | (k, v') :: rest =>
      if String.eqb k key then (k, v) :: rest else (k, v') :: set_prop key v rest
  end.

Fixpoint parse_value (fuel : nat) (ts : list token) : option (jsval * list token) :=
  match fuel with
  | O => None
  | S fuel' =>
      match ts with
      | TNull :: r => Some (JNull, r)
      | TTrue :: r => Some (JBool true, r)
      | TFalse :: r => Some (JBool false, r)
      | TNumber n :: r => Some (JNumber n, r)
      | TString s :: r => Some (JString s, r)
      | TLBracket :: TRBracket :: r => Some (JArray [], r)
      | TLBracket :: r =>
          match parse_items fuel' r with
          | Some (items, r') => Some (JArray items, r')
          | None => None
          end
      | TLBrace :: TRBrace :: r => Some (JObject [], r)
      | TLBrace :: r =>
          match parse_members fuel' [] r with
          | Some (props, r') => Some (JObject props, r')
          | None => None
          end
      | _ => None
      end
  end
with parse_items (fuel : nat) (ts : list token) : option (list jsval * list token) :=
  match fuel with
  | O => None
  | S fuel' =>
      match parse_value fuel' ts with
      | Some (v, TComma :: r) =>
          match parse_items fuel' r with
          | Some (vs, r') => Some (v :: vs, r')
          | None => None
          end
      | Some (v, TRBracket :: r) => Some ([v], r)
      | _ => None
      end
  end
with parse_members (fuel : nat) (acc : list (string * jsval)) (ts : list token)
  : option (list (string * jsval) * list token) :=
  match fuel with
  | O => None
  | S fuel' =>
      match ts with
      | TString k :: TColon :: r =>
          match parse_value fuel' r with
          | Some (v, TComma :: r') => parse_members fuel' (set_prop k v acc) r'
          | Some (v, TRBrace :: r') => Some (set_prop k v acc, r')
          | _ => None
          end
      | _ => None
      end
  end.

Definition parse_json (text : string) : option jsval :=
  let cs := list_ascii_of_string text in
  match lex (S (List.length cs)) cs with
  | Some ts =>
      match parse_value (S (List.length ts)) ts with
      | Some (v, []) => Some v
      | _ => None
      end
  | None => None
  end.

(** [path.join] of two segments that need no normalization. *)
Definition join_segments (dir name : string) : string := (dir ++ "/" ++ name)%string.

#[export] Instance node_runtime : Runtime :=
  {| JSON_parse := parse_json; tmpdir := "/tmp"; join := join_segments |}.

(** JSON texts are written below with ['] for the double quote. *)
Fixpoint json_text (s : string) : string :=
  match s with
  | EmptyString => EmptyString
  | String c rest => String (if Ascii.eqb c "'" then dquote else c) (json_text rest)
  end.

(** ** The other operations of the service: chats, messages, votes *)

(** A row of the [chatMessageVote] table. *)
Record ChatMessageVote : Type := {
  vote_chatId : string;
  vote_messageId : string;
  vote_isUpvote : bool
}.

(** The world together with the table of votes. *)
Record Store : Type := {
  world : World;
  chatMessageVote : list ChatMessageVote   (* the [chatMessageVote] table *)
}.

Definition set_world (w : World) (s : Store) : Store :=
  {| world := w; chatMessageVote := chatMessageVote s |}.

Definition set_votes (v : list ChatMessageVote) (s : Store) : Store :=
  {| world := world s; chatMessageVote := v |}.

Definition set_chats (c : list Chat) (w : World) : World :=
  {| chats := c; chatMessages := chatMessages w; files := files w;
     console := console w; faults := faults w |}.

Definition set_chatMessages (m : list ChatMessages) (w : World) : World :=
  {| chats := chats w; chatMessages := m; files := files w;
     console := console w; faults := faults w |}.

(** What happens to the rows that refer to a chat when the chat is deleted. *)
Inductive ReferentialAction : Type := Cascade | Restrict.

(** The service does not show the schema of its tables.  What it relies on is
    visible in its queries: [id] identifies a chat, the pair of [chatId] and
    [messageId] identifies a vote.  The rest is left to the schema here: its
    action on the rows of a deleted chat, and the constraints (references to
    other rows and the like) by which it may refuse a new row. *)
Class Schema : Type := {
  onDelete_chat : ReferentialAction;
  chat_refused : World -> Chat -> option exn;
  message_refused : World -> ChatMessages -> option exn;
  vote_refused : Store -> ChatMessageVote -> option exn
}.

(** Computations on the store. *)
Definition MS (A : Type) : Type := Store -> result A * Store.

Definition retS {A} (a : A) : MS A := fun s => (Ok a, s).

Definition throwS {A} (e : exn) : MS A := fun s => (Throw e, s).

Definition bindS {A B} (m : MS A) (k : A -> MS B) : MS B :=
  fun s => match m s with
           | (Ok a, s') => k a s'
           | (Throw e, s') => (Throw e, s')
           end.

Definition try_catchS {A} (body : MS A) (handler : exn -> MS A) : MS A :=
  fun s => match body s with
           | (Ok a, s') => (Ok a, s')
           | (Throw e, s') => handler e s'
           end.

(** A computation on the world, run on the store. *)
Definition liftW {A} (m : M A) : MS A :=
  fun s => match m (world s) with
           | (r, w') => (r, set_world w' s)
           end.

Notation "x <-- m ;; k" := (bindS m (fun x => k))
  (at level 100, m at next level, right associativity).

(** The Prisma client on the three tables, as for the queries above.  A
    write on a row that is not there is rejected (P2025), and so is a new row
    whose key is taken (P2002). *)

Definition has_id (cid : string) (c : Chat) : bool := String.eqb (chat_id c) cid.

Definition has_key (chatId messageId : string) (v : ChatMessageVote) : bool :=
  String.eqb (vote_chatId v) chatId && String.eqb (vote_messageId v) messageId.

(** The row a write addresses is the first with the key; it keeps its place. *)
Fixpoint replace_first {A} (is_row : A -> bool) (row : A) (l : list A) : list A :=
  match l with
  | [] => []
  | x :: rest => if is_row x then row :: rest else x :: replace_first is_row row rest
  end.

Fixpoint remove_first {A} (is_row : A -> bool) (l : list A) : list A :=
  match l with
  | [] => []
  | x :: rest => if is_row x then rest else x :: remove_first is_row rest
  end.

Section Tables.
Context `{Schema}.

Definition chat_create (data : Chat) : M Chat :=
  fun w => if existsb (has_id (chat_id data)) (chats w)
           then (Throw (Rejected "P2002"), w)
           else match chat_refused w data with
                | Some e => (Throw e, w)
                | None => (Ok data, set_chats (chats w ++ [data]) w)
                end.

Definition chat_update_visibility (cid : string) (visibility : ChatVisibilityType)
  : M Chat :=
  fun w => match find (has_id cid) (chats w) with
           | None => (Throw (Rejected "P2025"), w)
           | Some c =>
               let c' := {| chat_id := chat_id c; chat_title := chat_title c;
                            chat_userId := chat_userId c;
                            chat_projectId := chat_projectId c;
                            chat_visibility := visibility;
                            chat_createdAt := chat_createdAt c |} in
               (Ok c', set_chats (replace_first (has_id cid) c' (chats w)) w)
           end.

Definition chatMessages_create (data : ChatMessages) : M ChatMessages :=
  fun w => match message_refused w data with
           | Some e => (Throw e, w)
           | None => (Ok data, set_chatMessages (chatMessages w ++ [data]) w)
           end.

Definition refers_to_chat_m (cid : string) (m : ChatMessages) : bool :=
  String.eqb (msg_chatId m) cid.

Definition refers_to_chat_v (cid : string) (v : ChatMessageVote) : bool :=
  String.eqb (vote_chatId v) cid.

Definition chat_delete (cid : string) : MS Chat :=
  fun s =>
    let w := world s in
    match find (has_id cid) (chats w) with
    | None => (Throw (Rejected "P2025"), s)
    | Some c =>
        match onDelete_chat with
        | Cascade =>
            (Ok c,
             {| world :=
                  set_chatMessages
                    (List.filter (fun m => negb (refers_to_chat_m cid m)) (chatMessages w))
                    (set_chats (remove_first (has_id cid) (chats w)) w);
                chatMessageVote :=
                  List.filter (fun v => negb (refers_to_chat_v cid v))
                              (chatMessageVote s) |})
        | Restrict =>
            if existsb (refers_to_chat_m cid) (chatMessages w)
               || existsb (refers_to_chat_v cid) (chatMessageVote s)
            then (Throw (Rejected "P2003"), s)
            else (Ok c, set_world (set_chats (remove_first (has_id cid) (chats w)) w) s)
        end
    end.

Definition vote_findUnique (chatId messageId : string) : MS (option ChatMessageVote) :=
  fun s => (Ok (find (has_key chatId messageId) (chatMessageVote s)), s).

Definition vote_findMany (where_ : ChatMessageVote -> bool) : MS (list ChatMessageVote) :=
  fun s => (Ok (List.filter where_ (chatMessageVote s)), s).

Definition vote_update (chatId messageId : string) (isUpvote : bool)
  : MS ChatMessageVote :=
  fun s => match find (has_key chatId messageId) (chatMessageVote s) with
           | None => (Throw (Rejected "P2025"), s)
           | Some v =>
               let v' := {| vote_chatId := vote_chatId v;
                            vote_messageId := vote_messageId v;
                            vote_isUpvote := isUpvote |} in
               (Ok v',
                set_votes (replace_first (has_key chatId messageId) v'
                                         (chatMessageVote s)) s)
           end.

Definition vote_create (data : ChatMessageVote) : MS ChatMessageVote :=
  fun s => if existsb (has_key (vote_chatId data) (vote_messageId data))
                      (chatMessageVote s)
           then (Throw (Rejected "P2002"), s)
           else match vote_refused s data with
                | Some e => (Throw e, s)
                | None => (Ok data, set_votes (chatMessageVote s ++ [data]) s)
                end.

(** ** create, insertChatMessage, updateChatVisibleById, remove,
    getVotesByChatId

    As in [getMessagesByChatId], the [try] of these encloses only the
    creation of the promise they return: a rejection passes to the caller
    and nothing is logged. *)

Definition create (chat : Chat) : M Chat := chat_create chat.

Definition insertChatMessage (message : ChatMessages) : M ChatMessages :=
  chatMessages_create message.

Definition updateChatVisibleById (chatId : string) (visibility : ChatVisibilityType)
  : M Chat :=
  chat_update_visibility chatId visibility.

Definition remove (id : string) : MS Chat := chat_delete id.

Definition getVotesByChatId (id : string) : MS (list ChatMessageVote) :=
  vote_findMany (fun v => String.eqb (vote_chatId v) id).

(** ** getInfoById *)

Definition getInfoById (id : string) : M (option Chat) :=
  try_catch
    (chat_findUnique id)
    (fun error =>
       console_error "Failed to get chat by id from database" ;;;
       throw error).

(** ** voteMessage *)

Definition voteMessage (chatId messageId type_ : string) : MS ChatMessageVote :=
  try_catchS
    (existingVote <-- vote_findUnique chatId messageId ;;
     match existingVote with
     | Some _ =>
         (* the vote is there: it is updated *)
         vote_update chatId messageId (String.eqb type_ "up")
     | None =>
         (* a new vote *)
         vote_create {| vote_chatId := chatId; vote_messageId := messageId;
                        vote_isUpvote := String.eqb type_ "up" |}
     end)
    (fun error =>
       _ <-- liftW (console_error "Failed to vote message in database") ;;
       throwS error).
End Tables.

(** ** Vocabulary of the properties *)

(** The listing's predicate in the words of the specification. *)
Definition visible_to (id projectId : string) (c : Chat) : Prop :=
  chat_projectId c = projectId /\ (chat_userId c = id \/ chat_visibility c = PUBLIC).

(** The cursor of a call once resolved against the stored chats. *)
Inductive Cursor : Type :=
| NoCursor
| After (anchor : Chat)
| Before (anchor : Chat).

Definition find_chat (cid : string) (rows : list Chat) : option Chat :=
  find (fun c => String.eqb (chat_id c) cid) rows.

(** [startingAfter] when it is supplied, else [endingBefore] when it is;
    [None] when the cursor that is used names no stored chat. *)
Definition resolve_cursor (p : PaginationParams) (rows : list Chat) : option Cursor :=
  match truthy (startingAfter p) with
  | Some s => option_map After (find_chat s rows)
  | None =>
      match truthy (endingBefore p) with
      | Some s => option_map Before (find_chat s rows)
      | None => Some NoCursor
      end
  end.

Definition cursor_constraint (k : Cursor) (c : Chat) : bool :=
  match k with
  | NoCursor => true
  | After anchor => chat_createdAt anchor <? chat_createdAt c
  | Before anchor => chat_createdAt c <? chat_createdAt anchor
  end.

(** The stored chats a call is about: visible, and on the cursor's side. *)
Definition matching (p : PaginationParams) (k : Cursor) (rows : list Chat) : list Chat :=
  List.filter (fun c => baseWhere (id p) (projectId p) c && cursor_constraint k c) rows.

(** What the store is asked for: one row more than the page. *)
Definition fetched_rows (p : PaginationParams) (k : Cursor) (rows : list Chat) : list Chat :=
  take_rows (limit p + 1) (orderBy_createdAt_desc (matching p k rows)).

(** The last step of [getChatsByUserId], on the rows fetched. *)
Definition page_of (limit : Z) (fetched : list Chat) : Page :=
  let hasMore := Z.of_nat (List.length fetched) >? limit in
  {| page_chats := if hasMore then slice0 fetched limit else fetched;
     hasMore := hasMore |}.

(** The cursor id a call acts on. *)
Definition cursor_used (p : PaginationParams) : option string :=
  match truthy (startingAfter p) with
  | Some s => Some s
  | None => truthy (endingBefore p)
  end.

(** The whole listing of a caller in a project, newest first. *)
Definition listing (id projectId : string) (rows : list Chat) : list Chat :=
  orderBy_createdAt_desc (List.filter (baseWhere id projectId) rows).

(** The [name] an error carries in JavaScript: that of its class.  What a
    collaborator rejects with is of the collaborator's choosing. *)
Definition error_name (e : exn) : option string :=
  match e with
  | Error _ => Some "Error"
  | SyntaxError => Some "SyntaxError"
  | TypeError => Some "TypeError"
  | Rejected _ => None
  end.

(** A segment of type [text]. *)
Definition is_text_part (part : jsval) : bool :=
  match part with
  | JObject props => strict_eq_string (own_prop "type" props) "text"
  | _ => false
  end.

Definition has_text_segment (parts : jsval) : bool :=
  match parts with
  | JArray items => existsb is_text_part items
  | _ => false
  end.

(** The first segment of type [text], in the words of the specification. *)
Definition first_text_part (items : list jsval) : option jsval := find is_text_part items.

(** The callback of [parts.find]. *)
Definition is_text (part : jsval) : result bool :=
  and_then (get_prop part "type") (fun type_ => Ok (strict_eq_string type_ "text")).

(** [from] of an exported turn. *)
Definition from_of_role (role : string) : string :=
  if String.eqb role "user" then "human" else "gpt".

(** ** Vocabulary of the cursor properties *)

Definition without_endingBefore (p : PaginationParams) : PaginationParams :=
  {| id := id p; projectId := projectId p; limit := limit p;
     startingAfter := startingAfter p; endingBefore := None |}.

Definition forward_from (uid pid : string) (L : Z) (X : string) : PaginationParams :=
  {| id := uid; projectId := pid; limit := L;
     startingAfter := Some X; endingBefore := None |}.

Definition backward_from (uid pid : string) (L : Z) (X : string) : PaginationParams :=
  {| id := uid; projectId := pid; limit := L;
     startingAfter := None; endingBefore := Some X |}.

Definition same_items (a b : list Chat) : Prop := forall c, In c a <-> In c b.

(** The rows of a listing that come before the row with a given id, and those
    that come after it. *)
Fixpoint rows_before (cid : string) (l : list Chat) : list Chat :=
  match l with
  | [] => []
  | c :: rest => if String.eqb (chat_id c) cid then [] else c :: rows_before cid rest
  end.

Fixpoint rows_after (cid : string) (l : list Chat) : list Chat :=
  match l with
  | [] => []
  | c :: rest => if String.eqb (chat_id c) cid then rest else rows_after cid rest
  end.

(** Two readings of "the page preceding X": the [L] rows listed just before
    X (its newer neighbours), and the [L] rows created just before X (listed
    after it). *)
Definition page_listed_before (L : nat) (X : string) (l : list Chat) : list Chat :=
  skipn (List.length (rows_before X l) - L) (rows_before X l).

Definition page_created_before (L : nat) (X : string) (l : list Chat) : list Chat :=
  firstn L (rows_after X l).

(** The symmetry of the claim, for a given page preceding X. *)
Definition cursor_symmetry (preceding : list Chat) (w : World) (uid pid : string)
    (L : Z) (X : string) : Prop :=
  forall page1 first rest page2,
    getChatsByUserId (forward_from uid pid L X) w = (Ok page1, w) ->
    page_chats page1 = first :: rest ->
    getChatsByUserId (backward_from uid pid L (chat_id first)) w = (Ok page2, w) ->
    same_items (page_chats page2) preceding.

(** ** Vocabulary of the export *)

Section ExportVocabulary.
Context `{Runtime}.

(** The destination of an export. *)
Definition export_path (projectId chatId : string) : string :=
  join tmpdir (export_filename projectId chatId).

(** The stored messages of a chat, oldest first. *)
Definition chat_messages_of (chatId : string) (w : World) : list ChatMessages :=
  orderBy_createdAt_asc
    (List.filter (fun m => String.eqb (msg_chatId m) chatId) (chatMessages w)).

(** The archive of a chat whose formatted turns are [conversations]. *)
Definition archive_of (chatId : string) (conversations : list jsval) : File :=
  {| file_entries :=
       [(dataset_filename chatId, JObject [("conversations", JArray conversations)]);
        ("dataset_info.json", dataset_info (dataset_filename chatId))];
     file_finalized := true |}.

(** The first step of an export that fails, with the error it raises: the
    fetch of the messages, the formatting of a message, the addition of
    either entry, or the finalization. *)
Inductive export_fails (w : World) (chatId : string) : exn -> Prop :=
| fails_fetch e :
    fault_messages (faults w) = Some e ->
    export_fails w chatId e
| fails_format e :
    fault_messages (faults w) = None ->
    array_map format_item (chat_messages_of chatId w) = Throw e ->
    export_fails w chatId e
| fails_dataset_entry e conversations :
    fault_messages (faults w) = None ->
    array_map format_item (chat_messages_of chatId w) = Ok conversations ->
    fault_addJson (faults w) (dataset_filename chatId) = Some e ->
    export_fails w chatId e
| fails_info_entry e conversations :
    fault_messages (faults w) = None ->
    array_map format_item (chat_messages_of chatId w) = Ok conversations ->
    fault_addJson (faults w) (dataset_filename chatId) = None ->
    fault_addJson (faults w) "dataset_info.json" = Some e ->
    export_fails w chatId e
| fails_finalize e conversations :
    fault_messages (faults w) = None ->
    array_map format_item (chat_messages_of chatId w) = Ok conversations ->
    fault_addJson (faults w) (dataset_filename chatId) = None ->
    fault_addJson (faults w) "dataset_info.json" = None ->
    fault_finalize (faults w) = Some e ->
    export_fails w chatId e.

(** What the archive has been handed when the steps of the export stop,
    at the first that fails or after the last. *)
Definition handed_over (w : World) (chatId : string) : File :=
  match fault_messages (faults w) with
  | Some _ => empty_file
  | None =>
      match array_map format_item (chat_messages_of chatId w) with
      | Throw _ => empty_file
      | Ok conversations =>
          match fault_addJson (faults w) (dataset_filename chatId) with
          | Some _ => empty_file
          | None =>
              let one := add_entry (dataset_filename chatId,
                                    JObject [("conversations", JArray conversations)])
                                   empty_file in
              match fault_addJson (faults w) "dataset_info.json" with
              | Some _ => one
              | None =>
                  let two := add_entry ("dataset_info.json",
                                        dataset_info (dataset_filename chatId)) one in
                  match fault_finalize (faults w) with
                  | Some _ => two
                  | None => finalized two
                  end
              end
          end
      end
  end.

(** The files after an export that threw: the destination is gone if the
    stream had opened it, and is left with what the stream was handed if the
    open came late. *)
Definition files_after_failure (w : World) (path chatId : string) : gmap string File :=
  if fault_open_late (faults w)
  then <[path := handed_over w chatId]> (files w)
  else delete path (files w).

(** An exported turn, in the words of the specification: [from] by the role,
    [value] the text of the first segment of type [text]. *)
Definition turn_of (m : ChatMessages) (turn : jsval) : Prop :=
  exists items props,
    JSON_parse (msg_parts m) = Some (JArray items)
    /\ first_text_part items = Some (JObject props)
    /\ turn = JObject [("from", JString (from_of_role (msg_role m)));
                       ("value", own_prop "text" props)].
End ExportVocabulary.

(** The key of a vote. *)
Definition vote_key (v : ChatMessageVote) : string * string :=
  (vote_chatId v, vote_messageId v).

(** The vote [voteMessage] is asked to record. *)
Definition vote_of (chatId messageId type_ : string) : ChatMessageVote :=
  {| vote_chatId := chatId; vote_messageId := messageId;
     vote_isUpvote := String.eqb type_ "up" |}.

(** A chat with another visibility. *)
Definition with_visibility (v : ChatVisibilityType) (c : Chat) : Chat :=
  {| chat_id := chat_id c; chat_title := chat_title c; chat_userId := chat_userId c;
     chat_projectId := chat_projectId c; chat_visibility := v;
     chat_createdAt := chat_createdAt c |}.

(** ** Sample data *)

Definition mk_chat (cid owner project : string) (v : ChatVisibilityType) (t : Z) : Chat :=
  {| chat_id := cid; chat_title := cid; chat_userId := owner; chat_projectId := project;
     chat_visibility := v; chat_createdAt := t |}.

Definition c1 := mk_chat "c1" "alice" "p1" PRIVATE 1.
Definition c2 := mk_chat "c2" "alice" "p1" PRIVATE 2.
Definition c3 := mk_chat "c3" "bob" "p1" PUBLIC 3.
Definition c4 := mk_chat "c4" "alice" "p1" PRIVATE 4.
Definition c5 := mk_chat "c5" "alice" "p1" PRIVATE 5.
Definition c6 := mk_chat "c6" "bob" "p1" PUBLIC 6.
Definition c7 := mk_chat "c7" "alice" "p1" PRIVATE 7.
Definition c8 := mk_chat "c8" "alice" "p1" PRIVATE 8.
(** Not visible to alice in p1: another user's private chat, and a chat of
    her own and a public one in another project. *)
Definition d1 := mk_chat "d1" "bob" "p1" PRIVATE 9.
Definition d2 := mk_chat "d2" "alice" "p2" PRIVATE 10.
Definition d3 := mk_chat "d3" "bob" "p2" PUBLIC 11.

Definition m1 : ChatMessages :=
  {| msg_id := "m1"; msg_chatId := "c1"; msg_role := "user";
     msg_parts := json_text "[{'type':'text','text':'hi'}]"; msg_createdAt := 10 |}.
Definition m2 : ChatMessages :=
  {| msg_id := "m2"; msg_chatId := "c1"; msg_role := "assistant";
     msg_parts := json_text "[{'type':'step-start'},{'type':'text','text':'hello'}]";
     msg_createdAt := 20 |}.
(** A message of chat c2 without a text segment, one whose parts are not
    JSON, and a well-formed one before them. *)
Definition m3 : ChatMessages :=
  {| msg_id := "m3"; msg_chatId := "c2"; msg_role := "user";
     msg_parts := json_text "[{'type':'text','text':'first'}]"; msg_createdAt := 5 |}.
Definition m4 : ChatMessages :=
  {| msg_id := "m4"; msg_chatId := "c2"; msg_role := "assistant";
     msg_parts := json_text "[{'type':'reasoning','text':'hm'}]"; msg_createdAt := 6 |}.
Definition m5 : ChatMessages :=
  {| msg_id := "m5"; msg_chatId := "c4"; msg_role := "assistant";
     msg_parts := "[{"; msg_createdAt := 7 |}.

(** A message whose parts hold [null] ahead of the text segment. *)
Definition m6 : ChatMessages :=
  {| msg_id := "m6"; msg_chatId := "c3"; msg_role := "user";
     msg_parts := json_text "[null,{'type':'text','text':'late'}]"; msg_createdAt := 8 |}.

Definition sample_world : World :=
  {| chats := [c3; d2; c1; c8; d1; c5; c2; c7; d3; c4; c6];
     chatMessages := [m2; m4; m1; m5; m3];
     files := ∅;
     console := [];
     faults := no_faults |}.

Definition with_faults (f : Faults) (w : World) : World :=
  {| chats := chats w; chatMessages := chatMessages w; files := files w;
     console := console w; faults := f |}.

(** A world in which the archiver rejects the finalization. *)
Definition finalize_fails : Faults :=
  {| fault_messages := None;
     fault_addJson := fun _ => None;
     fault_finalize := Some (Rejected "EIO");
     fault_open_late := false |}.

(** A world in which the stream opens its file late. *)
Definition opens_late : Faults :=
  {| fault_messages := None;
     fault_addJson := fun _ => None;
     fault_finalize := None;
     fault_open_late := true |}.

Definition call (L : Z) (after before : option string) : PaginationParams :=
  {| id := "alice"; projectId := "p1"; limit := L;
     startingAfter := after; endingBefore := before |}.

(** A schema that cascades and refuses nothing, and one that restricts. *)
Definition plain_schema : Schema :=
  {| onDelete_chat := Cascade;
     chat_refused := fun _ _ => None;
     message_refused := fun _ _ => None;
     vote_refused := fun _ _ => None |}.


Definition v1 : ChatMessageVote :=
  {| vote_chatId := "c1"; vote_messageId := "m2"; vote_isUpvote := true |}.
Definition v2 : ChatMessageVote :=
  {| vote_chatId := "c2"; vote_messageId := "m4"; vote_isUpvote := false |}.

Definition sample_store : Store :=
  {| world := sample_world; chatMessageVote := [v1; v2] |}.

(** The stored messages in another order. *)
Definition sample_world_swapped : World :=
  {| chats := chats sample_world;
     chatMessages := [m4; m2; m1; m5; m3];
     files := files sample_world;
     console := console sample_world;
     faults := faults sample_world |}.

(** A chat of alice's that is not stored yet. *)
Definition c9 := mk_chat "c9" "alice" "p1" PRIVATE 12.

Definition m7 : ChatMessages :=
  {| msg_id := "m7"; msg_chatId := "c1"; msg_role := "user";
     msg_parts := json_text "[{'type':'text','text':'again'}]"; msg_createdAt := 30 |}.


(** * Properties *)

(** ** The store's ordering *)

Section SortFacts.
Context {A : Type} (before : A -> A -> bool).
Hypothesis before_total : forall a b, before a b = false -> before b a = true.
Hypothesis before_trans :
  forall a b c, before a b = true -> before b c = true -> before a c = true.

Lemma insert_row_perm (a : A) (l : list A) :
  Permutation (insert_row before a l) (a :: l).
Proof.
  induction l as [|b l IH]; simpl.
  - apply Permutation_refl.
  - destruct (before a b).
    + apply Permutation_refl.
    + eapply Permutation_trans.
      * apply perm_skip, IH.
      * apply perm_swap.
Qed.

Lemma sort_rows_perm (l : list A) : Permutation (sort_rows before l) l.
Proof.
  induction l as [|a l IH]; simpl.
  - apply perm_nil.
  - eapply Permutation_trans.
    + apply insert_row_perm.
    + apply perm_skip, IH.
Qed.

Lemma sort_rows_length (l : list A) :
  List.length (sort_rows before l) = List.length l.
Proof. apply Permutation_length, sort_rows_perm. Qed.

Lemma sort_rows_In (l : list A) (x : A) : In x (sort_rows before l) <-> In x l.
Proof.
  split; apply Permutation_in; [|apply Permutation_sym]; apply sort_rows_perm.
Qed.

Lemma insert_row_sorted (a : A) (l : list A) :
  StronglySorted (fun x y => before x y = true) l ->
  StronglySorted (fun x y => before x y = true) (insert_row before a l).
Proof using before_total before_trans.
  induction 1 as [|b l Hs IH Hb]; simpl.
  - constructor; constructor.
  - destruct (before a b) eqn:Hab.
    + constructor.
      * constructor; assumption.
      * constructor; [assumption|].
        rewrite List.Forall_forall in Hb |- *.
        intros c Hc. eapply before_trans; [exact Hab|]. apply Hb, Hc.
    + constructor; [exact IH|].
      rewrite List.Forall_forall. intros c Hc.
      apply (Permutation_in _ (insert_row_perm a l)) in Hc.
      destruct Hc as [<-|Hc].
      * apply before_total, Hab.
      * rewrite List.Forall_forall in Hb. apply Hb, Hc.
Qed.

Lemma sort_rows_sorted (l : list A) :
  StronglySorted (fun x y => before x y = true) (sort_rows before l).
Proof using before_total before_trans.
  induction l as [|a l IH]; simpl.
  - constructor.
  - apply insert_row_sorted, IH.
Qed.
End SortFacts.

Lemma skipn_incl {A} (n : nat) (l : list A) (x : A) : In x (skipn n l) -> In x l.
Proof.
  revert n. induction l as [|a l IH]; intros [|n]; simpl; auto.
  intros Hx. right. eapply IH, Hx.
Qed.

Lemma firstn_incl {A} (n : nat) (l : list A) (x : A) : In x (firstn n l) -> In x l.
Proof.
  revert n. induction l as [|a l IH]; intros [|n]; simpl; auto.
  - intros [].
  - intros [Hx|Hx]; [left; exact Hx | right; eapply IH, Hx].
Qed.

Lemma strongly_sorted_weaken {A} (R Q : A -> A -> Prop) (l : list A) :
  (forall a b, R a b -> Q a b) -> StronglySorted R l -> StronglySorted Q l.
Proof.
  intros HRQ. induction 1 as [|a l Hs IH Ha]; constructor; [exact IH|].
  rewrite List.Forall_forall in Ha |- *. intros b Hb. apply HRQ, Ha, Hb.
Qed.

(** In a sorted list every row of a prefix comes before every row of the
    rest. *)
Lemma sorted_firstn_skipn {A} (R : A -> A -> Prop) (l : list A) (n : nat) :
  StronglySorted R l ->
  forall x y, In x (firstn n l) -> In y (skipn n l) -> R x y.
Proof.
  intros Hs. revert n.
  induction Hs as [|a l Hs IH Ha]; intros n x y Hx Hy.
  - rewrite firstn_nil in Hx. destruct Hx.
  - destruct n as [|n]; simpl in Hx, Hy.
    + destruct Hx.
    + destruct Hx as [<-|Hx].
      * rewrite List.Forall_forall in Ha. apply Ha.
        eapply skipn_incl, Hy.
      * eapply IH; eassumption.
Qed.

Lemma newer_first_total (a b : Chat) : newer_first a b = false -> newer_first b a = true.
Proof. unfold newer_first. rewrite Z.leb_gt, Z.leb_le. lia. Qed.

Lemma newer_first_trans (a b c : Chat) :
  newer_first a b = true -> newer_first b c = true -> newer_first a c = true.
Proof. unfold newer_first. rewrite !Z.leb_le. lia. Qed.

Lemma older_first_total (a b : ChatMessages) :
  older_first a b = false -> older_first b a = true.
Proof. unfold older_first. rewrite Z.leb_gt, Z.leb_le. lia. Qed.

Lemma older_first_trans (a b c : ChatMessages) :
  older_first a b = true -> older_first b c = true -> older_first a c = true.
Proof. unfold older_first. rewrite !Z.leb_le. lia. Qed.

(** [orderBy: desc] returns the same rows, newest first. *)
Lemma orderBy_createdAt_desc_sorted (rows : list Chat) :
  StronglySorted (fun a b => chat_createdAt b <= chat_createdAt a)
                 (orderBy_createdAt_desc rows).
Proof.
  eapply strongly_sorted_weaken.
  2: apply (sort_rows_sorted newer_first newer_first_total newer_first_trans).
  intros a b. unfold newer_first. apply Z.leb_le.
Qed.

(** [orderBy: asc] returns the same rows, oldest first. *)
Lemma orderBy_createdAt_asc_sorted (rows : list ChatMessages) :
  StronglySorted (fun a b => msg_createdAt a <= msg_createdAt b)
                 (orderBy_createdAt_asc rows).
Proof.
  eapply strongly_sorted_weaken.
  2: apply (sort_rows_sorted older_first older_first_total older_first_trans).
  intros a b. unfold older_first. apply Z.leb_le.
Qed.

(** ** getChatsByUserId: what a call computes *)

Lemma filter_ext_bool {A} (f g : A -> bool) (l : list A) :
  (forall x, f x = g x) -> List.filter f l = List.filter g l.
Proof.
  intros Hfg. induction l as [|a l IH]; simpl; [reflexivity|].
  rewrite Hfg, IH. reflexivity.
Qed.

(** With the cursor resolved the call returns, without touching the world,
    the page cut from the rows fetched. *)
Lemma getChatsByUserId_resolved (w : World) (p : PaginationParams) (k : Cursor) :
  resolve_cursor p (chats w) = Some k ->
  getChatsByUserId p w = (Ok (page_of (limit p) (fetched_rows p k (chats w))), w).
Proof.
  unfold resolve_cursor, getChatsByUserId, try_catch, bind, chat_findUnique,
    chat_findMany, find_chat, fetched_rows, matching, page_of, ret.
  destruct (truthy (startingAfter p)) as [s|].
  - destruct (find _ (chats w)) as [x|]; simpl; [|discriminate].
    intros [= <-]. reflexivity.
  - destruct (truthy (endingBefore p)) as [s|].
    + destruct (find _ (chats w)) as [x|]; simpl; [|discriminate].
      intros [= <-]. reflexivity.
    + intros [= <-]. simpl.
      rewrite (filter_ext_bool
                 (fun c => baseWhere (id p) (projectId p) c && true)
                 (baseWhere (id p) (projectId p))).
      * reflexivity.
      * intros c. apply andb_true_r.
Qed.

(** With the cursor unresolved the call logs and throws. *)
Lemma getChatsByUserId_unresolved (w : World) (p : PaginationParams) :
  resolve_cursor p (chats w) = None ->
  exists s, cursor_used p = Some s /\ find_chat s (chats w) = None /\
    getChatsByUserId p w =
      (Throw (Error (not_found_message s)),
       set_console (console w ++ ["Failed to get chats by user from database"%string]) w).
Proof.
  unfold resolve_cursor, cursor_used, getChatsByUserId, try_catch, bind,
    chat_findUnique, find_chat, throw, console_error.
  destruct (truthy (startingAfter p)) as [s|].
  - destruct (find _ (chats w)) as [x|] eqn:Hf; simpl; [discriminate|].
    intros _. exists s. rewrite Hf. auto.
  - destruct (truthy (endingBefore p)) as [s|]; [|discriminate].
    destruct (find _ (chats w)) as [x|] eqn:Hf; simpl; [discriminate|].
    intros _. exists s. rewrite Hf. auto.
Qed.

Lemma fetched_rows_length (p : PaginationParams) (k : Cursor) (rows : list Chat) :
  0 <= limit p ->
  List.length (fetched_rows p k rows)
  = Nat.min (Z.to_nat (limit p + 1)) (List.length (matching p k rows)).
Proof.
  intros HL. unfold fetched_rows, take_rows.
  destruct (Z.leb_spec 0 (limit p + 1)); [|lia].
  rewrite length_firstn. unfold orderBy_createdAt_desc.
  rewrite sort_rows_length. reflexivity.
Qed.

(** The page of a call with a limit that is not negative: the first [limit]
    rows of the matching ones, newest first; [hasMore] tells whether there
    are more. *)
Lemma page_of_fetched (p : PaginationParams) (k : Cursor) (rows : list Chat) :
  0 <= limit p ->
  page_chats (page_of (limit p) (fetched_rows p k rows))
  = firstn (Z.to_nat (limit p)) (orderBy_createdAt_desc (matching p k rows))
  /\ hasMore (page_of (limit p) (fetched_rows p k rows))
     = (limit p <? Z.of_nat (List.length (matching p k rows))).
Proof.
  intros HL. unfold page_of. cbn [page_chats hasMore].
  rewrite fetched_rows_length by exact HL.
  set (n := List.length (matching p k rows)).
  assert (Hn : List.length (orderBy_createdAt_desc (matching p k rows)) = n)
    by apply sort_rows_length.
  rewrite Z.gtb_ltb.
  destruct (Z.ltb_spec (limit p) (Z.of_nat (Nat.min (Z.to_nat (limit p + 1)) n)))
    as [Hlt|Hge].
  - split.
    + unfold slice0, fetched_rows, take_rows.
      destruct (Z.leb_spec 0 (limit p)); [|lia].
      destruct (Z.leb_spec 0 (limit p + 1)); [|lia].
      rewrite firstn_firstn. f_equal. lia.
    + symmetry. apply Z.ltb_lt. lia.
  - split.
    + unfold fetched_rows, take_rows.
      destruct (Z.leb_spec 0 (limit p + 1)); [|lia].
      rewrite !firstn_all2; [reflexivity | lia | lia].
    + symmetry. apply Z.ltb_ge. lia.
Qed.

(** ** Page size and [hasMore] *)

(** C1.  A call with a positive limit [L] whose cursor (if any) resolves
    returns a page of at most [L] chats; [hasMore] is true exactly when more
    chats match the visibility predicate and the cursor constraint than the
    page holds; and when the overscan fetch brings more than [L] rows the
    page is the first [L] of them. *)
Theorem page_size_contract (w : World) (p : PaginationParams) (k : Cursor) :
  0 < limit p ->
  resolve_cursor p (chats w) = Some k ->
  exists page,
    getChatsByUserId p w = (Ok page, w)
    /\ Z.of_nat (List.length (page_chats page)) <= limit p
    /\ (hasMore page = true <->
        (List.length (page_chats page) < List.length (matching p k (chats w)))%nat)
    /\ (limit p < Z.of_nat (List.length (fetched_rows p k (chats w))) ->
        page_chats page = firstn (Z.to_nat (limit p)) (fetched_rows p k (chats w))).
Proof.
  intros HL Hk. eexists. split; [apply getChatsByUserId_resolved, Hk|].
  destruct (page_of_fetched p k (chats w)) as [Hc Hm]; [lia|].
  assert (Hn : List.length (orderBy_createdAt_desc (matching p k (chats w)))
               = List.length (matching p k (chats w))) by apply sort_rows_length.
  repeat split.
  - rewrite Hc, length_firstn. lia.
  - rewrite Hm, Hc, length_firstn, Hn. rewrite Z.ltb_lt. lia.
  - rewrite Hm, Hc, length_firstn, Hn. rewrite Z.ltb_lt. lia.
  - intros Hlt. unfold page_of. cbn [page_chats].
    rewrite Z.gtb_ltb. apply Z.ltb_lt in Hlt. rewrite Hlt.
    unfold slice0. destruct (Z.leb_spec 0 (limit p)); [reflexivity|lia].
Qed.

Lemma page_size_contract_witness :
  0 < limit (call 2 (Some "c3"%string) None)
  /\ resolve_cursor (call 2 (Some "c3"%string) None) (chats sample_world) = Some (After c3)
  /\ exists page,
       getChatsByUserId (call 2 (Some "c3"%string) None) sample_world
       = (Ok page, sample_world)
       /\ Z.of_nat (List.length (page_chats page)) <= 2
       /\ (hasMore page = true <->
           (List.length (page_chats page)
            < List.length (matching (call 2 (Some "c3"%string) None) (After c3)
                                    (chats sample_world)))%nat).
Proof.
  assert (H0 : 0 < limit (call 2 (Some "c3"%string) None)) by (simpl; lia).
  assert (H1 : resolve_cursor (call 2 (Some "c3"%string) None) (chats sample_world)
               = Some (After c3)) by reflexivity.
  split; [exact H0|]. split; [exact H1|].
  destruct (page_size_contract sample_world _ _ H0 H1) as (page & Hr & Hl & Hm & _).
  exists page. auto.
Defined.

(** ** Visibility *)

Lemma visibility_eqb_eq (a b : ChatVisibilityType) : visibility_eqb a b = true <-> a = b.
Proof. destruct a, b; simpl; split; intros; congruence. Qed.

(** [baseWhere] decides the predicate of the specification. *)
Lemma baseWhere_visible (uid pid : string) (c : Chat) :
  baseWhere uid pid c = true <-> visible_to uid pid c.
Proof.
  unfold baseWhere, visible_to.
  rewrite orb_true_iff, !andb_true_iff, !String.eqb_eq, visibility_eqb_eq.
  tauto.
Qed.

Lemma take_rows_incl {A} (n : Z) (l : list A) (x : A) : In x (take_rows n l) -> In x l.
Proof.
  unfold take_rows. destruct (0 <=? n); [apply firstn_incl | apply skipn_incl].
Qed.

Lemma slice0_incl {A} (l : list A) (n : Z) (x : A) : In x (slice0 l n) -> In x l.
Proof. unfold slice0. destruct (0 <=? n); apply firstn_incl. Qed.

Lemma page_of_incl (L : Z) (fetched : list Chat) (x : Chat) :
  In x (page_chats (page_of L fetched)) -> In x fetched.
Proof.
  unfold page_of. cbn [page_chats].
  destruct (_ >? L); [apply slice0_incl | auto].
Qed.

Lemma matching_In (p : PaginationParams) (k : Cursor) (rows : list Chat) (c : Chat) :
  In c (matching p k rows) <->
  In c rows /\ visible_to (id p) (projectId p) c /\ cursor_constraint k c = true.
Proof.
  unfold matching. rewrite filter_In, andb_true_iff, baseWhere_visible. tauto.
Qed.

(** Whatever the limit, a page holds only stored chats that match. *)
Lemma page_sound (p : PaginationParams) (k : Cursor) (rows : list Chat) (c : Chat) :
  In c (page_chats (page_of (limit p) (fetched_rows p k rows))) ->
  In c (matching p k rows).
Proof.
  intros Hc. apply page_of_incl in Hc. unfold fetched_rows in Hc.
  apply take_rows_incl in Hc.
  unfold orderBy_createdAt_desc in Hc. rewrite sort_rows_In in Hc. exact Hc.
Qed.

(** C2.  A call that returns has resolved its cursor, and every chat of the
    returned page is a stored chat of the requested project that the caller
    owns or that is public, and lies on the cursor's side; so no chat of
    another project appears.  For a limit that is not negative, a stored chat
    that satisfies the predicate and lies on the cursor's side is in the page
    unless the page is full, in which case every chat of the page is at
    least as new. *)
Theorem listing_visibility (w w' : World) (p : PaginationParams) (page : Page) :
  getChatsByUserId p w = (Ok page, w') ->
  exists k,
    resolve_cursor p (chats w) = Some k
    /\ (forall c, In c (page_chats page) ->
                  In c (chats w) /\ visible_to (id p) (projectId p) c
                  /\ cursor_constraint k c = true)
    /\ (forall c, In c (chats w) -> chat_projectId c <> projectId p ->
                  ~ In c (page_chats page))
    /\ (0 <= limit p ->
        forall c, In c (chats w) -> visible_to (id p) (projectId p) c ->
                  cursor_constraint k c = true ->
          In c (page_chats page)
          \/ (Z.of_nat (List.length (page_chats page)) = limit p
              /\ forall d, In d (page_chats page) ->
                           chat_createdAt c <= chat_createdAt d)).
Proof.
  intros Hrun.
  destruct (resolve_cursor p (chats w)) as [k|] eqn:Hk.
  2: { destruct (getChatsByUserId_unresolved w p Hk) as (s & _ & _ & Hthrow).
       rewrite Hthrow in Hrun. discriminate. }
  rewrite (getChatsByUserId_resolved w p k Hk) in Hrun.
  injection Hrun as <- <-.
  exists k. split; [reflexivity|].
  assert (Hsound : forall c,
             In c (page_chats (page_of (limit p) (fetched_rows p k (chats w)))) ->
             In c (chats w) /\ visible_to (id p) (projectId p) c
             /\ cursor_constraint k c = true).
  { intros c Hc. apply page_sound, matching_In in Hc. tauto. }
  split; [exact Hsound|]. split.
  - intros c _ Hproj Hc. apply Hsound in Hc. destruct Hc as (_ & [Hp _] & _). auto.
  - intros HL c Hin Hvis Hcur.
    destruct (page_of_fetched p k (chats w) HL) as [Hc _]. rewrite Hc.
    set (sorted := orderBy_createdAt_desc (matching p k (chats w))).
    assert (Hs : In c sorted).
    { unfold sorted, orderBy_createdAt_desc. rewrite sort_rows_In, matching_In. auto. }
    rewrite <- (firstn_skipn (Z.to_nat (limit p)) sorted) in Hs.
    apply in_app_or in Hs. destruct Hs as [Hs|Hs]; [left; exact Hs|right].
    split.
    + rewrite length_firstn.
      assert (Hlen : (Z.to_nat (limit p) < List.length sorted)%nat).
      { destruct (Nat.lt_ge_cases (Z.to_nat (limit p)) (List.length sorted)) as [|Hge];
          [assumption|].
        rewrite skipn_all2 in Hs by exact Hge. destruct Hs. }
      lia.
    + intros d Hd.
      exact (sorted_firstn_skipn _ sorted _ (orderBy_createdAt_desc_sorted _) d c Hd Hs).
Qed.

Lemma listing_visibility_witness :
  getChatsByUserId (call 2 None (Some "c6"%string)) sample_world
  = (Ok {| page_chats := [c5; c4]; hasMore := true |}, sample_world)
  /\ exists k,
       resolve_cursor (call 2 None (Some "c6"%string)) (chats sample_world) = Some k
       /\ (forall c, In c [c5; c4] ->
                     In c (chats sample_world) /\ visible_to "alice" "p1" c
                     /\ cursor_constraint k c = true)
       /\ (forall c, In c (chats sample_world) -> chat_projectId c <> "p1"%string ->
                     ~ In c [c5; c4]).
Proof.
  assert (Hrun : getChatsByUserId (call 2 None (Some "c6"%string)) sample_world
                 = (Ok {| page_chats := [c5; c4]; hasMore := true |}, sample_world))
    by reflexivity.
  split; [exact Hrun|].
  destruct (listing_visibility _ _ _ _ Hrun) as (k & Hk & H1 & H2 & _).
  exists k. split; [exact Hk|]. split; [exact H1 | exact H2].
Defined.

(** ** Cursors that name no chat *)

Lemma find_chat_None (s : string) (rows : list Chat) :
  (forall c, In c rows -> chat_id c <> s) -> find_chat s rows = None.
Proof.
  intros Hno. unfold find_chat.
  destruct (find _ rows) as [c|] eqn:Hf; [|reflexivity].
  apply find_some in Hf. destruct Hf as [Hin Heq].
  apply String.eqb_eq in Heq. destruct (Hno c Hin Heq).
Qed.

(** C3.  When the cursor id a call acts on ([startingAfter], or
    [endingBefore] when [startingAfter] is not supplied) is the id of no
    stored chat, the call throws the error that says so; it returns no page,
    empty or not. *)
Theorem unknown_cursor_not_found (w : World) (p : PaginationParams) (s : string) :
  cursor_used p = Some s ->
  (forall c, In c (chats w) -> chat_id c <> s) ->
  (exists w', getChatsByUserId p w = (Throw (Error (not_found_message s)), w'))
  /\ forall page w', getChatsByUserId p w <> (Ok page, w').
Proof.
  intros Hs Hno.
  assert (Hk : resolve_cursor p (chats w) = None).
  { unfold resolve_cursor. unfold cursor_used in Hs.
    destruct (truthy (startingAfter p)) as [s1|].
    - injection Hs as ->. rewrite (find_chat_None s _ Hno). reflexivity.
    - rewrite Hs, (find_chat_None s _ Hno). reflexivity. }
  destruct (getChatsByUserId_unresolved w p Hk) as (s' & Hs' & _ & Hthrow).
  assert (s' = s) by congruence. subst s'.
  split.
  - eexists. exact Hthrow.
  - intros page w'. rewrite Hthrow. discriminate.
Qed.

Lemma unknown_cursor_not_found_witness :
  cursor_used (call 2 None (Some "gone"%string)) = Some "gone"%string
  /\ (forall c, In c (chats sample_world) -> chat_id c <> "gone"%string)
  /\ exists w', getChatsByUserId (call 2 None (Some "gone"%string)) sample_world
                = (Throw (Error "Chat with id gone not found"), w').
Proof.
  assert (H1 : cursor_used (call 2 None (Some "gone"%string)) = Some "gone"%string)
    by reflexivity.
  assert (H2 : forall c, In c (chats sample_world) -> chat_id c <> "gone"%string).
  { simpl. intros c Hc.
    repeat (destruct Hc as [<-|Hc]; [discriminate|]). destruct Hc. }
  split; [exact H1|]. split; [exact H2|].
  exact (proj1 (unknown_cursor_not_found sample_world _ _ H1 H2)).
Defined.

(** ** Both cursors in one call *)

(** C8, as the claim states it, fails: a call that supplies both cursors is
    answered with a page. *)
Lemma both_cursors_answered :
  startingAfter (call 2 (Some "c3"%string) (Some "c8"%string)) = Some "c3"%string
  /\ endingBefore (call 2 (Some "c3"%string) (Some "c8"%string)) = Some "c8"%string
  /\ getChatsByUserId (call 2 (Some "c3"%string) (Some "c8"%string)) sample_world
     = (Ok {| page_chats := [c8; c7]; hasMore := true |}, sample_world).
Proof. repeat split. Qed.

(** C8, amended.  When [startingAfter] is supplied, [endingBefore] is not
    looked at: the call does what the same call without [endingBefore] does. *)
Theorem startingAfter_takes_precedence (w : World) (p : PaginationParams) (s : string) :
  truthy (startingAfter p) = Some s ->
  getChatsByUserId p w = getChatsByUserId (without_endingBefore p) w.
Proof.
  intros Hs. unfold getChatsByUserId, without_endingBefore. cbn [startingAfter
    endingBefore id projectId limit].
  rewrite Hs. reflexivity.
Qed.

Lemma startingAfter_takes_precedence_witness :
  truthy (startingAfter (call 2 (Some "c3"%string) (Some "gone"%string))) = Some "c3"%string
  /\ getChatsByUserId (call 2 (Some "c3"%string) (Some "gone"%string)) sample_world
     = getChatsByUserId (call 2 (Some "c3"%string) None) sample_world.
Proof.
  split; [reflexivity|].
  apply (startingAfter_takes_precedence sample_world
           (call 2 (Some "c3"%string) (Some "gone"%string)) "c3").
  reflexivity.
Defined.

(** ** Limit zero, and no rows *)

(** C9, as the claim states it, fails: a call with limit 0 is answered with
    an empty page. *)
Lemma zero_limit_answered :
  limit (call 0 None None) = 0
  /\ getChatsByUserId (call 0 None None) sample_world
     = (Ok {| page_chats := []; hasMore := true |}, sample_world).
Proof. split; reflexivity. Qed.

(** C9, amended.  With the cursor (if any) resolved, a call with limit 0
    returns an empty page whose [hasMore] tells whether any chat matches;
    a call with a positive limit for which no chat matches returns an empty
    page with [hasMore] false. *)
Theorem zero_limit_and_no_rows (w : World) (p : PaginationParams) (k : Cursor) :
  resolve_cursor p (chats w) = Some k ->
  (limit p = 0 ->
   getChatsByUserId p w
   = (Ok {| page_chats := [];
            hasMore := negb (Nat.eqb (List.length (matching p k (chats w))) 0) |}, w))
  /\ (0 < limit p -> matching p k (chats w) = [] ->
      getChatsByUserId p w = (Ok {| page_chats := []; hasMore := false |}, w)).
Proof.
  intros Hk. rewrite (getChatsByUserId_resolved w p k Hk).
  split.
  - intros H0.
    destruct (page_of_fetched p k (chats w)) as [Hc Hm]; [lia|].
    destruct (page_of (limit p) (fetched_rows p k (chats w))) as [pc hm].
    cbn [page_chats hasMore] in Hc, Hm. subst pc hm. rewrite H0. simpl.
    do 3 f_equal.
    destruct (List.length (matching p k (chats w))); reflexivity.
  - intros HL Hnone.
    destruct (page_of_fetched p k (chats w)) as [Hc Hm]; [lia|].
    destruct (page_of (limit p) (fetched_rows p k (chats w))) as [pc hm].
    cbn [page_chats hasMore] in Hc, Hm. subst pc hm. rewrite Hnone. simpl.
    rewrite firstn_nil.
    do 3 f_equal. apply Z.ltb_ge. lia.
Qed.

Lemma zero_limit_and_no_rows_witness :
  resolve_cursor (call 0 None (Some "c1"%string)) (chats sample_world) = Some (Before c1)
  /\ limit (call 0 None (Some "c1"%string)) = 0
  /\ getChatsByUserId (call 0 None (Some "c1"%string)) sample_world
     = (Ok {| page_chats := []; hasMore := false |}, sample_world).
Proof.
  assert (Hk : resolve_cursor (call 0 None (Some "c1"%string)) (chats sample_world)
               = Some (Before c1)) by reflexivity.
  split; [exact Hk|]. split; [reflexivity|].
  exact (proj1 (zero_limit_and_no_rows sample_world _ _ Hk) eq_refl).
Defined.

(** ** Forward, then backward *)

(** C4, as the claim states it, fails: forward from c3 with limit 2 gives
    c8, c7; backward from c8 gives c7, c6; the pages next to c3 are c5, c4
    and c2, c1. *)
Lemma cursor_symmetry_fails :
  page_listed_before 2 "c3" (listing "alice" "p1" (chats sample_world)) = [c5; c4]
  /\ page_created_before 2 "c3" (listing "alice" "p1" (chats sample_world)) = [c2; c1]
  /\ ~ cursor_symmetry [c5; c4] sample_world "alice" "p1" 2 "c3"
  /\ ~ cursor_symmetry [c2; c1] sample_world "alice" "p1" 2 "c3".
Proof.
  split; [reflexivity|]. split; [reflexivity|].
  split; intros Hsym;
    specialize (Hsym {| page_chats := [c8; c7]; hasMore := true |} c8 [c7]
                     {| page_chats := [c7; c6]; hasMore := true |}
                     eq_refl eq_refl eq_refl c7);
    destruct Hsym as [Hin _];
    (destruct Hin as [Heq|[Heq|[]]]; [left; reflexivity | discriminate Heq..]).
Qed.

Lemma find_chat_In (rows : list Chat) (c : Chat) :
  List.NoDup (map chat_id rows) -> In c rows -> find_chat (chat_id c) rows = Some c.
Proof.
  unfold find_chat. induction rows as [|a rows IH]; simpl; intros Hnd Hin.
  - destruct Hin.
  - inversion Hnd as [|? ? Hnotin Hnd']; subst.
    destruct Hin as [->|Hin].
    + rewrite String.eqb_refl. reflexivity.
    + destruct (String.eqb_spec (chat_id a) (chat_id c)) as [Heq|_].
      * exfalso. apply Hnotin. rewrite Heq. apply in_map, Hin.
      * apply IH; assumption.
Qed.

Lemma truthy_nonempty (s : string) : s <> EmptyString -> truthy (Some s) = Some s.
Proof. destruct s; [congruence | reflexivity]. Qed.

(** The first row of a page is at least as new as every matching row. *)
Lemma page_head_newest (p : PaginationParams) (k : Cursor) (rows : list Chat)
    (first : Chat) (rest : list Chat) :
  0 <= limit p ->
  page_chats (page_of (limit p) (fetched_rows p k rows)) = first :: rest ->
  forall c, In c (matching p k rows) -> chat_createdAt c <= chat_createdAt first.
Proof.
  intros HL Hpage c Hc.
  destruct (page_of_fetched p k rows HL) as [Hc' _]. rewrite Hc' in Hpage.
  pose proof (orderBy_createdAt_desc_sorted (matching p k rows)) as Hs.
  assert (Hin : In c (orderBy_createdAt_desc (matching p k rows))).
  { unfold orderBy_createdAt_desc. rewrite sort_rows_In. exact Hc. }
  destruct (orderBy_createdAt_desc (matching p k rows)) as [|a l]; [destruct Hin|].
  destruct (Z.to_nat (limit p)); simpl in Hpage; [discriminate|].
  injection Hpage as -> _.
  apply StronglySorted_inv in Hs. destruct Hs as [_ Ha].
  rewrite List.Forall_forall in Ha.
  destruct Hin as [->|Hin]; [lia | apply Ha, Hin].
Qed.

(** C4, amended.  Where chat ids are distinct and not empty: the first chat F
    of a non-empty page forward from X is the newest chat the caller can see
    in the project, and the page backward from F holds the (up to) L newest
    visible chats created before F, whatever X was. *)
Theorem forward_then_backward (w w1 : World) (uid pid : string) (L : Z) (X : string)
    (page1 : Page) (first : Chat) (rest : list Chat) :
  0 < L ->
  List.NoDup (map chat_id (chats w)) ->
  (forall c, In c (chats w) -> chat_id c <> EmptyString) ->
  getChatsByUserId (forward_from uid pid L X) w = (Ok page1, w1) ->
  page_chats page1 = first :: rest ->
  (forall c, In c (chats w) -> visible_to uid pid c ->
             chat_createdAt c <= chat_createdAt first)
  /\ exists page2,
       getChatsByUserId (backward_from uid pid L (chat_id first)) w = (Ok page2, w)
       /\ page_chats page2
          = firstn (Z.to_nat L)
              (orderBy_createdAt_desc
                 (List.filter (fun c => baseWhere uid pid c
                                        && (chat_createdAt c <? chat_createdAt first))
                              (chats w))).
Proof.
  intros HL Hnd Hne Hrun Hpage.
  set (p1 := forward_from uid pid L X) in *.
  destruct (resolve_cursor p1 (chats w)) as [k|] eqn:Hk.
  2: { destruct (getChatsByUserId_unresolved w p1 Hk) as (s & _ & _ & Hthrow).
       rewrite Hthrow in Hrun. discriminate. }
  rewrite (getChatsByUserId_resolved w p1 k Hk) in Hrun.
  injection Hrun as <- <-.
  assert (HL1 : 0 <= limit p1) by (simpl; lia).
  assert (Hpage' : page_chats (page_of (limit p1) (fetched_rows p1 k (chats w)))
                   = first :: rest) by exact Hpage.
  assert (Hfirst : In first (matching p1 k (chats w))).
  { apply page_sound. rewrite Hpage'. left. reflexivity. }
  pose proof (page_head_newest p1 k (chats w) first rest HL1 Hpage') as Hnewest.
  apply matching_In in Hfirst. destruct Hfirst as (Hin & Hvis & Hcur).
  split.
  - intros c Hc Hv.
    destruct (cursor_constraint k c) eqn:Hkc.
    + apply Hnewest, matching_In. auto.
    + unfold resolve_cursor, p1, forward_from in Hk.
      cbn [startingAfter endingBefore] in Hk.
      destruct (truthy (Some X)) as [s|].
      * destruct (find_chat s (chats w)) as [x|]; simpl in Hk; [|discriminate].
        injection Hk as <-. simpl in Hkc, Hcur.
        apply Z.ltb_ge in Hkc. apply Z.ltb_lt in Hcur. lia.
      * simpl in Hk. injection Hk as <-. discriminate Hkc.
  - set (p2 := backward_from uid pid L (chat_id first)).
    assert (Hk2 : resolve_cursor p2 (chats w) = Some (Before first)).
    { unfold resolve_cursor, p2, backward_from. cbn [startingAfter endingBefore].
      rewrite (truthy_nonempty _ (Hne first Hin)).
      rewrite (find_chat_In _ _ Hnd Hin). reflexivity. }
    eexists. split; [apply getChatsByUserId_resolved, Hk2|].
    destruct (page_of_fetched p2 (Before first) (chats w)) as [Hc _]; [simpl; lia|].
    exact Hc.
Qed.

Lemma sample_ids_distinct : List.NoDup (map chat_id (chats sample_world)).
Proof.
  simpl. repeat (constructor; [simpl; intros H;
    repeat (destruct H as [H|H]; [discriminate H|]); destruct H|]).
  constructor.
Qed.

Lemma sample_ids_nonempty (c : Chat) : In c (chats sample_world) -> chat_id c <> EmptyString.
Proof.
  simpl. intros Hc.
  repeat (destruct Hc as [<-|Hc]; [discriminate|]). destruct Hc.
Qed.

Lemma forward_then_backward_witness :
  getChatsByUserId (forward_from "alice" "p1" 2 "c3") sample_world
  = (Ok {| page_chats := [c8; c7]; hasMore := true |}, sample_world)
  /\ exists page2,
       getChatsByUserId (backward_from "alice" "p1" 2 "c8") sample_world
       = (Ok page2, sample_world)
       /\ page_chats page2 = [c7; c6].
Proof.
  assert (Hrun : getChatsByUserId (forward_from "alice" "p1" 2 "c3") sample_world
                 = (Ok {| page_chats := [c8; c7]; hasMore := true |}, sample_world))
    by reflexivity.
  split; [exact Hrun|].
  assert (H2 : 0 < 2) by lia.
  destruct (forward_then_backward sample_world sample_world "alice" "p1" 2 "c3"
              _ c8 [c7] H2 sample_ids_distinct sample_ids_nonempty Hrun eq_refl)
    as (_ & page2 & Hback & Hpage).
  exists page2. split; [exact Hback | exact Hpage].
Defined.

(** ** Formatting one message *)

Lemma array_map_Ok {A B} (cb : A -> result B) (l : list A) (ys : list B) :
  array_map cb l = Ok ys -> Forall2 (fun x y => cb x = Ok y) l ys.
Proof.
  revert ys. induction l as [|x l IH]; simpl; intros ys Hmap.
  - injection Hmap as <-. constructor.
  - destruct (cb x) as [y|e] eqn:Hx; simpl in Hmap; [|discriminate].
    destruct (array_map cb l) as [ys'|e]; simpl in Hmap; [|discriminate].
    injection Hmap as <-. constructor; auto.
Qed.

Lemma array_map_Throw {A B} (cb : A -> result B) (l : list A) (e : exn) :
  array_map cb l = Throw e -> exists x, In x l /\ cb x = Throw e.
Proof.
  induction l as [|x l IH]; simpl; intros Hmap; [discriminate|].
  destruct (cb x) as [y|e'] eqn:Hx; simpl in Hmap.
  - destruct (array_map cb l) as [ys|e'']; simpl in Hmap; [discriminate|].
    injection Hmap as ->. destruct (IH eq_refl) as (x' & Hin & Hx').
    exists x'. auto.
  - injection Hmap as ->. exists x. auto.
Qed.

(** One callback that throws makes the whole map throw. *)
Lemma array_map_aborts {A B} (cb : A -> result B) (l : list A) (x : A) (e : exn) :
  In x l -> cb x = Throw e -> exists e', array_map cb l = Throw e'.
Proof.
  induction l as [|a l IH]; simpl; intros Hin Hx; [destruct Hin|].
  destruct (cb a) as [y|e'] eqn:Ha; simpl; [|eauto].
  destruct Hin as [->|Hin]; [congruence|].
  destruct (IH Hin Hx) as [e'' ->]. simpl. eauto.
Qed.

Lemma is_text_Ok (part : jsval) (b : bool) : is_text part = Ok b -> b = is_text_part part.
Proof.
  destruct part; unfold is_text, is_text_part; cbn [get_prop and_then strict_eq_string];
    intros Hb; congruence.
Qed.

(** [find] with the service's callback returns the first segment of type
    [text], or [undefined] when there is none. *)
Lemma array_find_first_text (items : list jsval) (found : jsval) :
  array_find is_text items = Ok found ->
  first_text_part items = Some found
  \/ (existsb is_text_part items = false /\ found = JUndefined).
Proof.
  unfold first_text_part.
  induction items as [|x items IH]; simpl; intros Hfind.
  - right. split; [reflexivity | congruence].
  - destruct (is_text x) as [b|e] eqn:Hx; [|discriminate].
    apply is_text_Ok in Hx. rewrite <- Hx.
    destruct b; simpl.
    + left. congruence.
    + apply IH, Hfind.
Qed.

Lemma first_text_part_object (items : list jsval) (found : jsval) :
  first_text_part items = Some found -> exists props, found = JObject props.
Proof.
  intros Hf. apply find_some in Hf. destruct Hf as [_ Ht].
  destruct found; try discriminate Ht. eauto.
Qed.

Lemma array_find_no_text (items : list jsval) :
  existsb is_text_part items = false ->
  array_find is_text items = Ok JUndefined \/ array_find is_text items = Throw TypeError.
Proof.
  induction items as [|x items IH]; simpl; intros Hnone; [auto|].
  apply orb_false_iff in Hnone. destruct Hnone as [Hx Hrest].
  destruct x; simpl in *; auto.
  unfold is_text in IH. rewrite Hx. auto.
Qed.

Section FormatFacts.
Context `{Runtime}.

(** [format_item] throws nothing but the two errors of the runtime. *)
Lemma format_item_Throw (item : ChatMessages) (e : exn) :
  format_item item = Throw e -> e = SyntaxError \/ e = TypeError.
Proof.
  unfold format_item, call_find.
  destruct (JSON_parse (msg_parts item)) as [parts|]; [|intros [= <-]; auto].
  destruct parts as [| | | | |items|]; simpl; try (intros [= <-]; auto).
  fold is_text.
  destruct (array_find is_text items) as [found|e'] eqn:Hfind; simpl.
  - destruct found; simpl; intros [= <-]; auto.
  - intros [= <-].
    assert (Hthrows : forall l e0, array_find is_text l = Throw e0 -> e0 = TypeError).
    { clear. induction l as [|x l IH]; simpl; intros e0; [discriminate|].
      destruct (is_text x) as [[|]|e1] eqn:Hx; [discriminate|apply IH|].
      intros [= <-]. destruct x; unfold is_text in Hx; simpl in Hx; congruence. }
    right. eapply Hthrows, Hfind.
Qed.

(** What [format_item] returns is the turn of the specification. *)
Lemma format_item_Ok (item : ChatMessages) (turn : jsval) :
  format_item item = Ok turn -> turn_of item turn.
Proof.
  unfold format_item, turn_of, call_find.
  destruct (JSON_parse (msg_parts item)) as [parts|]; [|discriminate].
  destruct parts as [| | | | |items|]; simpl; try discriminate.
  fold is_text.
  destruct (array_find is_text items) as [found|e'] eqn:Hfind; simpl; [|discriminate].
  apply array_find_first_text in Hfind.
  destruct Hfind as [Hfirst|[_ ->]]; [|discriminate].
  destruct (first_text_part_object _ _ Hfirst) as [props ->].
  simpl. intros [= <-]. exists items, props. auto.
Qed.

(** Parts that cannot be decoded make [format_item] throw the error of
    [JSON.parse]. *)
Lemma format_item_undecodable (item : ChatMessages) :
  JSON_parse (msg_parts item) = None -> format_item item = Throw SyntaxError.
Proof. intros Hparse. unfold format_item. rewrite Hparse. reflexivity. Qed.

(** Parts without a segment of type [text] make it throw a [TypeError]: on
    the call of [find] when they are no array, on the read of [text] from
    [undefined], or of [type] from [null], when they are one. *)
Lemma format_item_no_text (item : ChatMessages) (parts : jsval) :
  JSON_parse (msg_parts item) = Some parts ->
  has_text_segment parts = false ->
  format_item item = Throw TypeError.
Proof.
  intros Hparse Hnone. unfold format_item, call_find. rewrite Hparse.
  destruct parts as [| | | | |items|]; simpl; try reflexivity.
  fold is_text. simpl in Hnone.
  destruct (array_find_no_text items Hnone) as [-> | ->]; reflexivity.
Qed.
End FormatFacts.

(** ** exportChatDataset: what a call computes *)

Ltac world_simpl :=
  cbv beta iota zeta;
  cbn [fst snd faults set_files files chatMessages js_truthy dataset_info].

Section ExportFacts.
Context `{Runtime}.

(** The steps inside the [try], run on the world that [createWriteStream]
    left and an empty archive: they stop at the first that fails, or after
    the last; the archive has then been handed [handed_over], and the file at
    the destination holds the same if the stream has opened it. *)
Lemma export_steps_run (w : World) (zipPath name chatId : string) :
  let w0 := if fault_open_late (faults w) then w
            else set_files (<[zipPath := empty_file]> (files w)) w in
  let w1 := if fault_open_late (faults w) then w
            else set_files (<[zipPath := handed_over w chatId]> (files w)) w in
  (exists e, export_fails w chatId e
             /\ export_steps zipPath name chatId (w0, empty_file)
                = (Throw e, (w1, handed_over w chatId)))
  \/ (exists conversations,
        fault_messages (faults w) = None
        /\ array_map format_item (chat_messages_of chatId w) = Ok conversations
        /\ fault_addJson (faults w) (dataset_filename chatId) = None
        /\ fault_addJson (faults w) "dataset_info.json" = None
        /\ fault_finalize (faults w) = None
        /\ handed_over w chatId = archive_of chatId conversations
        /\ export_steps zipPath name chatId (w0, empty_file)
           = (Ok {| filePath := zipPath; filename := name |},
              (w1, handed_over w chatId))).
Proof.
  unfold handed_over, export_steps, bindX, liftX, getMessagesByChatId,
    chatMessages_findMany, lift, addJsonToArchive, archive_finalize, piped, retX.
  destruct (fault_open_late (faults w)) eqn:Hlate; world_simpl;
    fold (chat_messages_of chatId w).
  - destruct (fault_messages (faults w)) as [e|] eqn:Hfetch; world_simpl.
    { left. exists e. split; [apply fails_fetch, Hfetch | reflexivity]. }
    destruct (array_map format_item (chat_messages_of chatId w)) as [conversations|e]
      eqn:Hformat; world_simpl.
    2: { left. exists e. split; [apply fails_format; assumption | reflexivity]. }
    destruct (fault_addJson (faults w) (dataset_filename chatId)) as [e|] eqn:Hadd1;
      world_simpl.
    { left. exists e. split; [eapply fails_dataset_entry; eassumption | reflexivity]. }
    rewrite Hlate. world_simpl.
    destruct (fault_addJson (faults w) "dataset_info.json") as [e|] eqn:Hadd2;
      world_simpl.
    { left. exists e. split; [eapply fails_info_entry; eassumption | reflexivity]. }
    rewrite Hlate. world_simpl.
    destruct (fault_finalize (faults w)) as [e|] eqn:Hfin; world_simpl.
    { left. exists e. split; [eapply fails_finalize; eassumption | reflexivity]. }
    rewrite Hlate. world_simpl.
    right. exists conversations. repeat (split; [reflexivity|]). reflexivity.
  - destruct (fault_messages (faults w)) as [e|] eqn:Hfetch; world_simpl.
    { left. exists e. split; [apply fails_fetch, Hfetch | reflexivity]. }
    destruct (array_map format_item (chat_messages_of chatId w)) as [conversations|e]
      eqn:Hformat; world_simpl.
    2: { left. exists e. split; [apply fails_format; assumption | reflexivity]. }
    destruct (fault_addJson (faults w) (dataset_filename chatId)) as [e|] eqn:Hadd1;
      world_simpl.
    { left. exists e. split; [eapply fails_dataset_entry; eassumption | reflexivity]. }
    rewrite Hlate. world_simpl. rewrite alter_insert_eq.
    destruct (fault_addJson (faults w) "dataset_info.json") as [e|] eqn:Hadd2;
      world_simpl.
    { left. exists e. split; [eapply fails_info_entry; eassumption | reflexivity]. }
    rewrite Hlate. world_simpl. rewrite alter_insert_eq.
    destruct (fault_finalize (faults w)) as [e|] eqn:Hfin; world_simpl.
    { left. exists e. split; [eapply fails_finalize; eassumption | reflexivity]. }
    rewrite Hlate. world_simpl. rewrite alter_insert_eq.
    right. exists conversations. repeat (split; [reflexivity|]). reflexivity.
Qed.

(** The call around the steps: the stream is created, the steps run under
    the cleanup, and the stream opens if it has not yet. *)
Lemma exportChatDataset_around (w : World) (projectId chatId : string) :
  exportChatDataset projectId chatId w
  = match try_catchX
            (export_steps (export_path projectId chatId)
                          (export_filename projectId chatId) chatId)
            (export_cleanup (export_path projectId chatId))
            (if fault_open_late (faults w) then w
             else set_files (<[export_path projectId chatId := empty_file]> (files w)) w,
             empty_file) with
    | (r, (w', handed)) => (r, open_settles (export_path projectId chatId) handed w')
    end.
Proof.
  unfold exportChatDataset, export_path, bindX, liftX, createWriteStream, archiver.
  cbn [fst snd].
  destruct (fault_open_late (faults w)); reflexivity.
Qed.

(** The export, case by case: the first step that fails makes it throw that
    step's error, after the cleanup and the open of the stream; when no step
    fails the destination holds the finished archive.  Nothing but the file
    at the destination differs from the world before. *)
Lemma exportChatDataset_run (w : World) (projectId chatId : string) :
  (exists e, export_fails w chatId e
             /\ exportChatDataset projectId chatId w
                = (Throw e,
                   set_files (files_after_failure w (export_path projectId chatId) chatId)
                             w))
  \/ (exists conversations,
        fault_messages (faults w) = None
        /\ array_map format_item (chat_messages_of chatId w) = Ok conversations
        /\ fault_addJson (faults w) (dataset_filename chatId) = None
        /\ fault_addJson (faults w) "dataset_info.json" = None
        /\ fault_finalize (faults w) = None
        /\ exportChatDataset projectId chatId w
           = (Ok {| filePath := export_path projectId chatId;
                    filename := export_filename projectId chatId |},
              set_files (<[export_path projectId chatId := archive_of chatId conversations]>
                           (files w)) w)).
Proof.
  rewrite exportChatDataset_around.
  set (zipPath := export_path projectId chatId).
  unfold try_catchX, files_after_failure.
  destruct (export_steps_run w zipPath (export_filename projectId chatId) chatId)
    as [(e & Hfails & Hsteps)
       | (conversations & H1 & H2 & H3 & H4 & H5 & Hhanded & Hsteps)];
    cbv zeta in Hsteps; rewrite Hsteps.
  - left. exists e. split; [exact Hfails|].
    unfold export_cleanup, bindX, liftX, catch_with, try_catch, fs_unlink, ret, throwX,
      open_settles.
    destruct (fault_open_late (faults w)) eqn:Hlate; world_simpl.
    + destruct (files w !! zipPath); world_simpl; rewrite Hlate;
        unfold set_files; cbn [files chats chatMessages console faults];
        rewrite ?insert_delete_eq; reflexivity.
    + rewrite lookup_insert_eq. world_simpl. rewrite Hlate.
      unfold set_files; cbn [files chats chatMessages console faults].
      rewrite delete_insert_eq. reflexivity.
  - right. exists conversations. repeat (split; [assumption|]).
    unfold open_settles. rewrite Hhanded.
    destruct (fault_open_late (faults w)) eqn:Hlate; world_simpl; rewrite ?Hlate;
      reflexivity.
Qed.

Lemma export_fails_unique (w : World) (chatId : string) (e e' : exn) :
  export_fails w chatId e -> export_fails w chatId e' -> e = e'.
Proof. destruct 1; destruct 1; congruence. Qed.


(** A failing step makes the export throw that step's error.  The
    destination is then gone if the stream had opened it; if the open came
    late the file is there, with what the stream was handed. *)
Lemma export_fails_throws (w : World) (projectId chatId : string) (e : exn) :
  export_fails w chatId e ->
  exists w', exportChatDataset projectId chatId w = (Throw e, w')
             /\ files w' !! export_path projectId chatId
                = if fault_open_late (faults w) then Some (handed_over w chatId)
                  else None.
Proof.
  intros Hfails.
  destruct (exportChatDataset_run w projectId chatId)
    as [(e' & Hfails' & Hrun) | (conversations & H1 & H2 & H3 & H4 & H5 & _)].
  - rewrite (export_fails_unique _ _ _ _ Hfails Hfails'). eexists. split; [exact Hrun|].
    cbn [files set_files]. unfold files_after_failure.
    destruct (fault_open_late (faults w)).
    + apply lookup_insert_eq.
    + apply lookup_delete_eq.
  - exfalso. destruct Hfails; congruence.
Qed.

Lemma chat_messages_of_In (w : World) (m : ChatMessages) :
  In m (chatMessages w) -> In m (chat_messages_of (msg_chatId m) w).
Proof.
  intros Hin. unfold chat_messages_of, orderBy_createdAt_asc.
  rewrite sort_rows_In, filter_In, String.eqb_refl. auto.
Qed.
End ExportFacts.

(** ** The exported archive *)

Section ExportClaims.
Context `{Runtime}.

(** C5.  When the export returns, it returns the path and the file name
    [DatasetLoom-<projectId>-<chatId>.zip]; the file at that path is the
    finalized archive of exactly two entries: the dataset, whose
    conversations are the turns of the chat's stored messages, one per
    message, oldest first, and the manifest. *)
Theorem export_contents (w w' : World) (projectId chatId : string) (r : Exported) :
  exportChatDataset projectId chatId w = (Ok r, w') ->
  filename r = ("DatasetLoom-" ++ projectId ++ "-" ++ chatId ++ ".zip")%string
  /\ filePath r = join tmpdir (filename r)
  /\ exists conversations messages,
       files w' !! filePath r
       = Some {| file_entries :=
                   [(("chat_" ++ chatId ++ "_dataset.json")%string,
                     JObject [("conversations", JArray conversations)]);
                    ("dataset_info.json",
                     JObject
                       [("DatasetLoom",
                         JObject
                           [("file_name",
                             JString ("chat_" ++ chatId ++ "_dataset.json")%string);
                            ("formatting", JString "sharegpt");
                            ("columns",
                             JObject [("messages", JString "conversations")])])])];
                 file_finalized := true |}
       /\ Permutation messages
            (List.filter (fun m => String.eqb (msg_chatId m) chatId) (chatMessages w))
       /\ StronglySorted (fun a b => msg_createdAt a <= msg_createdAt b) messages
       /\ Forall2 turn_of messages conversations.
Proof.
  intros Hrun.
  destruct (exportChatDataset_run w projectId chatId)
    as [(e & _ & Hthrow) | (conversations & _ & Hformat & _ & _ & _ & Hok)].
  - rewrite Hthrow in Hrun. discriminate.
  - rewrite Hok in Hrun. injection Hrun as <- <-.
    cbn [filename filePath]. split; [reflexivity|]. split; [reflexivity|].
    exists conversations, (chat_messages_of chatId w).
    split; [|split; [|split]].
    + cbn [files set_files]. unfold export_path. rewrite lookup_insert_eq. reflexivity.
    + apply sort_rows_perm.
    + apply orderBy_createdAt_asc_sorted.
    + apply array_map_Ok in Hformat.
      clear Hok.
      induction Hformat as [|m turn ms turns Hm _ IH].
      * constructor.
      * constructor; [apply format_item_Ok, Hm | exact IH].
Qed.

(** C7, as amended.  A message whose parts cannot be decoded makes the
    formatting throw the [SyntaxError] of [JSON.parse]; one whose parts
    decode to something without a segment of type [text] makes it throw a
    [TypeError].  Either aborts the export of its chat, which throws one of
    the two errors, and no entry is produced: whatever file the destination
    holds afterwards is empty. *)
Theorem malformed_content_aborts (item : ChatMessages) :
  JSON_parse (msg_parts item) = None
  \/ (exists parts, JSON_parse (msg_parts item) = Some parts
                    /\ has_text_segment parts = false) ->
  format_item item
  = Throw (match JSON_parse (msg_parts item) with
           | None => SyntaxError
           | Some _ => TypeError
           end)
  /\ forall (w : World) (projectId : string),
       In item (chatMessages w) ->
       fault_messages (faults w) = None ->
       exists e w', exportChatDataset projectId (msg_chatId item) w = (Throw e, w')
                    /\ (e = SyntaxError \/ e = TypeError)
                    /\ forall f, files w' !! export_path projectId (msg_chatId item)
                                 = Some f -> f = empty_file.
Proof.
  intros Hbad.
  assert (Hitem : format_item item
                  = Throw (match JSON_parse (msg_parts item) with
                           | None => SyntaxError
                           | Some _ => TypeError
                           end)).
  { destruct Hbad as [Hparse | (parts & Hparse & Hnone)].
    - rewrite Hparse. apply format_item_undecodable, Hparse.
    - rewrite Hparse. eapply format_item_no_text; eassumption. }
  split; [exact Hitem|].
  intros w projectId Hin Hfetch.
  destruct (array_map_aborts format_item _ item _ (chat_messages_of_In w item Hin) Hitem)
    as [e Hmap].
  assert (Hruntime : e = SyntaxError \/ e = TypeError).
  { destruct (array_map_Throw _ _ _ Hmap) as (x & _ & Hx).
    eapply format_item_Throw, Hx. }
  destruct (export_fails_throws w projectId (msg_chatId item) e
              (fails_format w _ e Hfetch Hmap)) as (w' & Hrun & Hleft).
  exists e, w'. split; [exact Hrun|]. split; [exact Hruntime|].
  intros f Hf. rewrite Hleft in Hf.
  unfold handed_over in Hf. rewrite Hfetch, Hmap in Hf.
  destruct (fault_open_late (faults w)); congruence.
Qed.

(** C10.  A chat without stored messages is exported: with the store and the
    archiver doing their work the export returns, and the dataset entry of
    the archive has an empty [conversations]. *)
Theorem empty_chat_exports (w : World) (projectId chatId : string) :
  List.filter (fun m => String.eqb (msg_chatId m) chatId) (chatMessages w) = [] ->
  fault_messages (faults w) = None ->
  fault_addJson (faults w) (dataset_filename chatId) = None ->
  fault_addJson (faults w) "dataset_info.json" = None ->
  fault_finalize (faults w) = None ->
  exportChatDataset projectId chatId w
  = (Ok {| filePath := join tmpdir (export_filename projectId chatId);
           filename := export_filename projectId chatId |},
     set_files
       (<[join tmpdir (export_filename projectId chatId) :=
            {| file_entries :=
                 [(dataset_filename chatId, JObject [("conversations", JArray [])]);
                  ("dataset_info.json", dataset_info (dataset_filename chatId))];
               file_finalized := true |}]> (files w)) w).
Proof.
  intros Hnone Hfetch Hadd1 Hadd2 Hfin.
  assert (Hmsgs : chat_messages_of chatId w = []).
  { unfold chat_messages_of. rewrite Hnone. reflexivity. }
  destruct (exportChatDataset_run w projectId chatId)
    as [(e & Hfails & _) | (conversations & _ & Hformat & _ & _ & _ & Hok)].
  - exfalso. destruct Hfails; try congruence.
    rewrite Hmsgs in *. discriminate.
  - rewrite Hmsgs in Hformat. injection Hformat as <-. exact Hok.
Qed.
End ExportClaims.

(** ** The service on the sample data *)

(** The scenario of the specification: two messages, a user's and an
    assistant's. *)
Example export_c1 :
  exists w',
    exportChatDataset "p1" "c1" sample_world
    = (Ok {| filePath := "/tmp/DatasetLoom-p1-c1.zip";
             filename := "DatasetLoom-p1-c1.zip" |}, w')
    /\ files w' !! "/tmp/DatasetLoom-p1-c1.zip"%string
       = Some (archive_of "c1"
                 [JObject [("from", JString "human"); ("value", JString "hi")];
                  JObject [("from", JString "gpt"); ("value", JString "hello")]]).
Proof.
  destruct (exportChatDataset_run sample_world "p1" "c1")
    as [(e & Hfails & _) | (conversations & _ & Hformat & _ & _ & _ & Hok)].
  - exfalso. destruct Hfails as [e Hf|e _ Hf|e cs _ _ Hf|e cs _ _ _ Hf|e cs _ _ _ _ Hf];
      vm_compute in Hf; discriminate Hf.
  - vm_compute in Hformat. injection Hformat as <-.
    eexists. split; [exact Hok|].
    cbn [files set_files]. apply lookup_insert_eq.
Qed.

(** The second of the two messages of chat c2 has no text segment: the
    export throws, and a stream that has opened its file by then leaves
    nothing. *)
Example export_c2_aborts :
  exists w',
    exportChatDataset "p1" "c2" sample_world = (Throw TypeError, w')
    /\ files w' !! "/tmp/DatasetLoom-p1-c2.zip"%string = None.
Proof.
  assert (Hfails : export_fails sample_world "c2" TypeError)
    by (apply fails_format; reflexivity).
  destruct (export_fails_throws sample_world "p1" "c2" TypeError Hfails)
    as (w' & Hrun & Hgone).
  exists w'. split; [exact Hrun | exact Hgone].
Qed.

(** A finalization that is rejected, with the file open by then: the
    rejection is thrown on and the file is unlinked. *)
Example export_c1_finalize_rejected :
  exists w',
    exportChatDataset "p1" "c1" (with_faults finalize_fails sample_world)
    = (Throw (Rejected "EIO"), w')
    /\ files w' !! "/tmp/DatasetLoom-p1-c1.zip"%string = None.
Proof.
  assert (Hfails : export_fails (with_faults finalize_fails sample_world) "c1"
                                (Rejected "EIO"))
    by (eapply fails_finalize; reflexivity).
  destruct (export_fails_throws _ "p1" "c1" _ Hfails) as (w' & Hrun & Hgone).
  exists w'. split; [exact Hrun | exact Hgone].
Qed.

(** C6.  The cleanup does not always leave the destination without a file.
    The stream opens its file on its own time, and the formatting of chat
    c2 fails at once: when the open has not happened by then, [unlink] finds
    no file, its rejection is swallowed, and the open then creates the file.
    The error is thrown on unchanged, and the destination, which held no
    file before the call, holds an empty one after it. *)
Theorem export_leaves_a_file :
  files (with_faults opens_late sample_world) !! "/tmp/DatasetLoom-p1-c2.zip"%string
  = None
  /\ export_fails (with_faults opens_late sample_world) "c2" TypeError
  /\ exists w',
       exportChatDataset "p1" "c2" (with_faults opens_late sample_world)
       = (Throw TypeError, w')
       /\ files w' !! "/tmp/DatasetLoom-p1-c2.zip"%string = Some empty_file.
Proof.
  assert (Hfails : export_fails (with_faults opens_late sample_world) "c2" TypeError)
    by (apply fails_format; reflexivity).
  split; [reflexivity|]. split; [exact Hfails|].
  destruct (export_fails_throws _ "p1" "c2" TypeError Hfails) as (w' & Hrun & Hleft).
  exists w'. split; [exact Hrun | exact Hleft].
Qed.

(** C7, as stated, fails: the error that the formatting of m4, whose parts
    hold no segment of type [text], and of m5, whose parts do not decode,
    ends with is no [MalformedContent]; it is the runtime's [TypeError], and
    its [SyntaxError]. *)
Lemma no_MalformedContent_error :
  (exists parts, JSON_parse (msg_parts m4) = Some parts
                 /\ has_text_segment parts = false)
  /\ JSON_parse (msg_parts m5) = None
  /\ ~ (exists e, format_item m4 = Throw e /\ error_name e = Some "MalformedContent"%string)
  /\ ~ (exists e, format_item m5 = Throw e /\ error_name e = Some "MalformedContent"%string).
Proof.
  split; [eexists; split; reflexivity|]. split; [reflexivity|].
  split; intros (e & Hthrow & Hname); vm_compute in Hthrow;
    injection Hthrow as <-; discriminate Hname.
Qed.

Lemma export_contents_witness :
  exportChatDataset "p1" "c1" sample_world
  = (Ok {| filePath := "/tmp/DatasetLoom-p1-c1.zip";
           filename := "DatasetLoom-p1-c1.zip" |},
     snd (exportChatDataset "p1" "c1" sample_world))
  /\ filename {| filePath := "/tmp/DatasetLoom-p1-c1.zip";
                 filename := "DatasetLoom-p1-c1.zip" |}
     = "DatasetLoom-p1-c1.zip"%string.
Proof.
  assert (Hrun : exportChatDataset "p1" "c1" sample_world
                 = (Ok {| filePath := "/tmp/DatasetLoom-p1-c1.zip";
                          filename := "DatasetLoom-p1-c1.zip" |},
                    snd (exportChatDataset "p1" "c1" sample_world)))
    by (vm_compute; reflexivity).
  split; [exact Hrun|].
  exact (proj1 (export_contents sample_world _ "p1" "c1" _ Hrun)).
Defined.

Lemma malformed_content_aborts_witness :
  (JSON_parse (msg_parts m4) = None
   \/ exists parts, JSON_parse (msg_parts m4) = Some parts
                    /\ has_text_segment parts = false)
  /\ format_item m4 = Throw TypeError
  /\ exists e w',
       exportChatDataset "p1" "c2" (with_faults opens_late sample_world) = (Throw e, w')
       /\ (e = SyntaxError \/ e = TypeError)
       /\ forall f, files w' !! export_path "p1" "c2" = Some f -> f = empty_file.
Proof.
  assert (Hbad : JSON_parse (msg_parts m4) = None
                 \/ exists parts, JSON_parse (msg_parts m4) = Some parts
                                  /\ has_text_segment parts = false).
  { right. eexists. split; reflexivity. }
  split; [exact Hbad|].
  destruct (malformed_content_aborts m4 Hbad) as [Hitem Hexport].
  split; [exact Hitem|].
  apply (Hexport (with_faults opens_late sample_world) "p1"%string).
  - right. left. reflexivity.
  - reflexivity.
Defined.

Lemma empty_chat_exports_witness :
  List.filter (fun m => String.eqb (msg_chatId m) "c9") (chatMessages sample_world) = []
  /\ exportChatDataset "p1" "c9" sample_world
     = (Ok {| filePath := "/tmp/DatasetLoom-p1-c9.zip";
              filename := "DatasetLoom-p1-c9.zip" |},
        set_files
          (<["/tmp/DatasetLoom-p1-c9.zip"%string :=
               {| file_entries :=
                    [("chat_c9_dataset.json"%string,
                      JObject [("conversations", JArray [])]);
                     ("dataset_info.json"%string, dataset_info "chat_c9_dataset.json")];
                  file_finalized := true |}]> (files sample_world)) sample_world).
Proof.
  split; [reflexivity|].
  exact (empty_chat_exports sample_world "p1" "c9"
           eq_refl eq_refl eq_refl eq_refl eq_refl).
Defined.

(** * Further properties of the service *)

(** ** The order and the rows of a page *)

Lemma sorted_firstn {A} (R : A -> A -> Prop) (l : list A) (n : nat) :
  StronglySorted R l -> StronglySorted R (firstn n l).
Proof.
  intros Hs. revert n. induction Hs as [|a l Hs IH Ha]; intros [|n]; simpl;
    try constructor.
  - apply IH.
  - rewrite List.Forall_forall in Ha |- *. intros x Hx.
    apply Ha. eapply firstn_incl, Hx.
Qed.

Lemma sorted_skipn {A} (R : A -> A -> Prop) (l : list A) (n : nat) :
  StronglySorted R l -> StronglySorted R (skipn n l).
Proof.
  intros Hs. revert n. induction Hs as [|a l Hs IH Ha]; intros [|n]; simpl.
  - constructor.
  - constructor.
  - constructor; assumption.
  - apply IH.
Qed.

(** Whatever the cursor and the limit, a returned page lists its chats
    newest first. *)
Theorem page_newest_first (w w' : World) (p : PaginationParams) (page : Page) :
  getChatsByUserId p w = (Ok page, w') ->
  StronglySorted (fun a b => chat_createdAt b <= chat_createdAt a) (page_chats page).
Proof.
  intros Hrun.
  destruct (resolve_cursor p (chats w)) as [k|] eqn:Hk.
  2: { destruct (getChatsByUserId_unresolved w p Hk) as (s & _ & _ & Hthrow).
       rewrite Hthrow in Hrun. discriminate. }
  rewrite (getChatsByUserId_resolved w p k Hk) in Hrun.
  injection Hrun as <- <-.
  pose proof (orderBy_createdAt_desc_sorted (matching p k (chats w))) as Hs.
  assert (Hf : StronglySorted (fun a b => chat_createdAt b <= chat_createdAt a)
                              (fetched_rows p k (chats w))).
  { unfold fetched_rows, take_rows.
    destruct (0 <=? limit p + 1); [apply sorted_firstn | apply sorted_skipn]; exact Hs. }
  unfold page_of. cbn [page_chats].
  destruct (_ >? limit p); [|exact Hf].
  unfold slice0. destruct (0 <=? limit p); apply sorted_firstn, Hf.
Qed.

Lemma page_newest_first_witness :
  getChatsByUserId (call 2 None (Some "c6"%string)) sample_world
  = (Ok {| page_chats := [c5; c4]; hasMore := true |}, sample_world)
  /\ StronglySorted (fun a b => chat_createdAt b <= chat_createdAt a) [c5; c4].
Proof.
  assert (Hrun : getChatsByUserId (call 2 None (Some "c6"%string)) sample_world
                 = (Ok {| page_chats := [c5; c4]; hasMore := true |}, sample_world))
    by reflexivity.
  split; [exact Hrun|].
  exact (page_newest_first _ _ _ _ Hrun).
Defined.

Lemma NoDup_map_firstn {A B} (f : A -> B) (l : list A) (n : nat) :
  List.NoDup (map f l) -> List.NoDup (map f (firstn n l)).
Proof.
  revert n. induction l as [|a l IH]; intros [|n]; simpl; intros Hnd;
    try constructor.
  - inversion Hnd as [|? ? Hnotin Hnd']; subst.
    intros Hin. apply Hnotin. apply in_map_iff in Hin.
    destruct Hin as (x & Hfx & Hx). apply in_map_iff. exists x.
    split; [exact Hfx | eapply firstn_incl, Hx].
  - inversion Hnd; subst. apply IH. assumption.
Qed.

Lemma NoDup_map_skipn {A B} (f : A -> B) (l : list A) (n : nat) :
  List.NoDup (map f l) -> List.NoDup (map f (skipn n l)).
Proof.
  revert n. induction l as [|a l IH]; intros [|n]; simpl; intros Hnd; auto.
  inversion Hnd; subst. apply IH. assumption.
Qed.

Lemma NoDup_map_filter {A B} (f : A -> B) (q : A -> bool) (l : list A) :
  List.NoDup (map f l) -> List.NoDup (map f (List.filter q l)).
Proof.
  induction l as [|a l IH]; simpl; intros Hnd; [constructor|].
  inversion Hnd as [|? ? Hnotin Hnd']; subst.
  destruct (q a); simpl; [|auto].
  constructor; [|auto].
  intros Hin. apply Hnotin. apply in_map_iff in Hin.
  destruct Hin as (x & Hfx & Hx). apply in_map_iff. exists x.
  apply filter_In in Hx. tauto.
Qed.

Lemma NoDup_map_sort {A B} (f : A -> B) (before : A -> A -> bool) (l : list A) :
  List.NoDup (map f l) -> List.NoDup (map f (sort_rows before l)).
Proof.
  intros Hnd. eapply Permutation_NoDup; [|exact Hnd].
  apply Permutation_map, Permutation_sym, sort_rows_perm.
Qed.

(** Where the stored chats have distinct ids, no chat is listed twice in a
    page. *)
Theorem page_without_repeats (w w' : World) (p : PaginationParams) (page : Page) :
  List.NoDup (map chat_id (chats w)) ->
  getChatsByUserId p w = (Ok page, w') ->
  List.NoDup (map chat_id (page_chats page)).
Proof.
  intros Hnd Hrun.
  destruct (resolve_cursor p (chats w)) as [k|] eqn:Hk.
  2: { destruct (getChatsByUserId_unresolved w p Hk) as (s & _ & _ & Hthrow).
       rewrite Hthrow in Hrun. discriminate. }
  rewrite (getChatsByUserId_resolved w p k Hk) in Hrun.
  injection Hrun as <- <-.
  assert (Hf : List.NoDup (map chat_id (fetched_rows p k (chats w)))).
  { unfold fetched_rows, take_rows, matching, orderBy_createdAt_desc.
    destruct (0 <=? limit p + 1);
      [apply NoDup_map_firstn | apply NoDup_map_skipn];
      apply NoDup_map_sort, NoDup_map_filter, Hnd. }
  unfold page_of. cbn [page_chats].
  destruct (_ >? limit p); [|exact Hf].
  unfold slice0. destruct (0 <=? limit p); apply NoDup_map_firstn, Hf.
Qed.

Lemma page_without_repeats_witness :
  List.NoDup (map chat_id (chats sample_world))
  /\ getChatsByUserId (call 3 None None) sample_world
     = (Ok {| page_chats := [c8; c7; c6]; hasMore := true |}, sample_world)
  /\ List.NoDup (map chat_id [c8; c7; c6]).
Proof.
  assert (Hrun : getChatsByUserId (call 3 None None) sample_world
                 = (Ok {| page_chats := [c8; c7; c6]; hasMore := true |}, sample_world))
    by reflexivity.
  split; [exact sample_ids_distinct|]. split; [exact Hrun|].
  exact (page_without_repeats _ _ _ _ sample_ids_distinct Hrun).
Defined.

(** ** The cursor is exclusive *)

(** A page after a cursor holds only chats created strictly later than the
    cursor's chat, a page before it only chats created strictly earlier: the
    cursor's chat is never in the page, and neither is a chat created at the
    same instant. *)
Theorem cursor_is_exclusive (w w' : World) (p : PaginationParams) (page : Page)
    (k : Cursor) :
  getChatsByUserId p w = (Ok page, w') ->
  resolve_cursor p (chats w) = Some k ->
  forall c, In c (page_chats page) ->
    match k with
    | NoCursor => True
    | After anchor => chat_createdAt anchor < chat_createdAt c
    | Before anchor => chat_createdAt c < chat_createdAt anchor
    end.
Proof.
  intros Hrun Hk c Hc.
  rewrite (getChatsByUserId_resolved w p k Hk) in Hrun.
  injection Hrun as <- <-.
  apply page_sound, matching_In in Hc. destruct Hc as (_ & _ & Hcur).
  destruct k; simpl in Hcur; [exact I | apply Z.ltb_lt, Hcur | apply Z.ltb_lt, Hcur].
Qed.

Lemma cursor_is_exclusive_witness :
  getChatsByUserId (call 2 None (Some "c6"%string)) sample_world
  = (Ok {| page_chats := [c5; c4]; hasMore := true |}, sample_world)
  /\ resolve_cursor (call 2 None (Some "c6"%string)) (chats sample_world)
     = Some (Before c6)
  /\ forall c, In c [c5; c4] -> chat_createdAt c < chat_createdAt c6.
Proof.
  assert (Hrun : getChatsByUserId (call 2 None (Some "c6"%string)) sample_world
                 = (Ok {| page_chats := [c5; c4]; hasMore := true |}, sample_world))
    by reflexivity.
  assert (Hk : resolve_cursor (call 2 None (Some "c6"%string)) (chats sample_world)
               = Some (Before c6)) by reflexivity.
  split; [exact Hrun|]. split; [exact Hk|].
  exact (cursor_is_exclusive _ _ _ _ _ Hrun Hk).
Defined.

(** ** What a listing call leaves behind *)

(** The call reads: it changes neither the tables nor the files.  It writes
    one line to the console exactly when it throws. *)
Theorem getChatsByUserId_reads_only (w : World) (p : PaginationParams) :
  let (r, w') := getChatsByUserId p w in
  chats w' = chats w /\ chatMessages w' = chatMessages w
  /\ files w' = files w /\ faults w' = faults w
  /\ console w'
     = match r with
       | Ok _ => console w
       | Throw _ => console w ++ ["Failed to get chats by user from database"%string]
       end.
Proof.
  destruct (resolve_cursor p (chats w)) as [k|] eqn:Hk.
  - rewrite (getChatsByUserId_resolved w p k Hk). auto.
  - destruct (getChatsByUserId_unresolved w p Hk) as (s & _ & _ & ->).
    simpl. auto.
Qed.

(** ** Limits below zero *)

(** A call with a negative limit is not rejected either: once the cursor (if
    any) resolves it returns an empty page that reports [hasMore], whatever
    is stored. *)
Theorem negative_limit_page (w : World) (p : PaginationParams) (k : Cursor) :
  limit p < 0 ->
  resolve_cursor p (chats w) = Some k ->
  getChatsByUserId p w = (Ok {| page_chats := []; hasMore := true |}, w).
Proof.
  intros HL Hk. rewrite (getChatsByUserId_resolved w p k Hk).
  unfold page_of.
  set (fetched := fetched_rows p k (chats w)).
  assert (Hlen : Z.of_nat (List.length fetched) <= - (limit p + 1)).
  { unfold fetched, fetched_rows, take_rows.
    destruct (Z.leb_spec 0 (limit p + 1)).
    - assert (limit p + 1 = 0) as -> by lia. simpl. lia.
    - rewrite length_skipn. lia. }
  assert (Hmore : (Z.of_nat (List.length fetched) >? limit p) = true).
  { rewrite Z.gtb_ltb. apply Z.ltb_lt. lia. }
  rewrite Hmore. do 3 f_equal.
  unfold slice0. destruct (Z.leb_spec 0 (limit p)); [lia|].
  replace (List.length fetched - Z.to_nat (- limit p))%nat with 0%nat by lia.
  reflexivity.
Qed.

Lemma negative_limit_page_witness :
  limit (call (-3) None None) < 0
  /\ resolve_cursor (call (-3) None None) (chats sample_world) = Some NoCursor
  /\ getChatsByUserId (call (-3) None None) sample_world
     = (Ok {| page_chats := []; hasMore := true |}, sample_world).
Proof.
  assert (HL : limit (call (-3) None None) < 0) by (simpl; lia).
  assert (Hk : resolve_cursor (call (-3) None None) (chats sample_world)
               = Some NoCursor) by reflexivity.
  split; [exact HL|]. split; [exact Hk|].
  exact (negative_limit_page sample_world _ _ HL Hk).
Defined.

(** ** Scrolling through the listing *)

(** A list sorted for a relation without repeats of the key is sorted for the
    strict relation. *)
Lemma sorted_strict {A} (key : A -> Z) (rows : list A) :
  StronglySorted (fun a b => key b <= key a) rows ->
  List.NoDup (map key rows) ->
  StronglySorted (fun a b => key b < key a) rows.
Proof.
  induction 1 as [|a l Hs IH Ha]; simpl; intros Hnd; constructor.
  - apply IH. inversion Hnd. assumption.
  - inversion Hnd as [|? ? Hnotin _]; subst.
    rewrite List.Forall_forall in Ha |- *. intros b Hb.
    specialize (Ha b Hb).
    assert (key b <> key a).
    { intros Heq. apply Hnotin. rewrite <- Heq. apply in_map, Hb. }
    lia.
Qed.

(** Two lists sorted strictly by a key that hold the same rows are the same
    list. *)
Lemma strictly_sorted_unique {A} (key : A -> Z) (l1 l2 : list A) :
  StronglySorted (fun a b => key b < key a) l1 ->
  StronglySorted (fun a b => key b < key a) l2 ->
  (forall c, In c l1 <-> In c l2) ->
  l1 = l2.
Proof.
  intros Hs1. revert l2.
  induction Hs1 as [|a l1 Hs1 IH Ha]; intros l2 Hs2 Hsame.
  - destruct l2 as [|b l2]; [reflexivity|].
    destruct (proj2 (Hsame b) (or_introl eq_refl)).
  - destruct Hs2 as [|b l2 Hs2 Hb].
    + destruct (proj1 (Hsame a) (or_introl eq_refl)).
    + rewrite List.Forall_forall in Ha, Hb.
      assert (Hab : a = b).
      { destruct (proj1 (Hsame a) (or_introl eq_refl)) as [Heq|Hin]; [auto|].
        destruct (proj2 (Hsame b) (or_introl eq_refl)) as [Heq|Hin']; [auto|].
        specialize (Ha b Hin'). specialize (Hb a Hin). lia. }
      subst b. f_equal. apply IH; [exact Hs2|].
      intros c. split; intros Hc.
      * destruct (proj1 (Hsame c) (or_intror Hc)) as [Heq|Hin]; [|exact Hin].
        subst c. specialize (Ha a Hc). lia.
      * destruct (proj2 (Hsame c) (or_intror Hc)) as [Heq|Hin]; [|exact Hin].
        subst c. specialize (Hb a Hc). lia.
Qed.

Lemma filter_both {A} (f g : A -> bool) (l : list A) :
  List.filter (fun x => f x && g x) l = List.filter f (List.filter g l).
Proof.
  induction l as [|a l IH]; simpl; [reflexivity|].
  destruct (g a); simpl.
  - destruct (f a); simpl; rewrite IH; reflexivity.
  - rewrite andb_false_r. exact IH.
Qed.

Lemma sorted_before_last {A} (R : A -> A -> Prop) (init : list A) (z x : A) :
  StronglySorted R (init ++ [z]) -> In x init -> R x z.
Proof.
  induction init as [|a init IH]; simpl; intros Hs Hx; [destruct Hx|].
  apply StronglySorted_inv in Hs. destruct Hs as [Hs Ha].
  destruct Hx as [->|Hx]; [|auto].
  rewrite List.Forall_forall in Ha. apply Ha, in_or_app. right. left. reflexivity.
Qed.

Lemma firstn_twice {A} (n : nat) (l : list A) :
  firstn n l ++ firstn n (skipn n l) = firstn (n + n) l.
Proof.
  assert (Hgen : forall m k (l0 : list A),
             firstn m l0 ++ firstn k (skipn m l0) = firstn (m + k) l0).
  { induction m as [|m IH]; intros k l0; simpl; [reflexivity|].
    destruct l0 as [|a l0]; simpl.
    - rewrite firstn_nil. reflexivity.
    - rewrite IH. reflexivity. }
  apply Hgen.
Qed.

(** The rows listed after the first [n] are those created before the last
    of the first [n]. *)
Lemma rows_after_page (S : list Chat) (n : nat) (init : list Chat) (z : Chat) :
  StronglySorted (fun a b => chat_createdAt b < chat_createdAt a) S ->
  firstn n S = init ++ [z] ->
  forall c, In c (skipn n S) <-> In c S /\ chat_createdAt c < chat_createdAt z.
Proof.
  intros Hs Hpage c. split.
  - intros Hc. split; [eapply skipn_incl, Hc|].
    apply (sorted_firstn_skipn _ S n Hs z c); [|exact Hc].
    rewrite Hpage. apply in_or_app. right. left. reflexivity.
  - intros [Hc Hlt].
    rewrite <- (firstn_skipn n S) in Hc. apply in_app_or in Hc.
    destruct Hc as [Hc|Hc]; [|exact Hc].
    exfalso. rewrite Hpage in Hc. apply in_app_or in Hc.
    destruct Hc as [Hc|[<-|[]]]; [|lia].
    pose proof (sorted_firstn _ S n Hs) as Hs'. rewrite Hpage in Hs'.
    pose proof (sorted_before_last _ init z c Hs' Hc). simpl in *. lia.
Qed.

(** A caller scrolls by passing the last chat of a page as [endingBefore].
    Where ids are distinct and not empty and no two visible chats were
    created at the same instant, the next page continues the listing: the two
    pages together are its first [2 * limit] rows, none skipped and none
    repeated. *)
Theorem scrolling_continues (w w1 : World) (p : PaginationParams) (k : Cursor)
    (page1 : Page) (init : list Chat) (last : Chat) :
  0 < limit p ->
  List.NoDup (map chat_id (chats w)) ->
  (forall c, In c (chats w) -> chat_id c <> EmptyString) ->
  List.NoDup (map chat_createdAt
                  (List.filter (baseWhere (id p) (projectId p)) (chats w))) ->
  truthy (startingAfter p) = None ->
  resolve_cursor p (chats w) = Some k ->
  getChatsByUserId p w = (Ok page1, w1) ->
  page_chats page1 = init ++ [last] ->
  exists page2,
    getChatsByUserId (backward_from (id p) (projectId p) (limit p) (chat_id last)) w
    = (Ok page2, w)
    /\ page_chats page1 ++ page_chats page2
       = firstn (Z.to_nat (limit p) + Z.to_nat (limit p))
                (orderBy_createdAt_desc (matching p k (chats w))).
Proof.
  intros HL Hids Hne Htimes Hnoafter Hk Hrun Hpage.
  rewrite (getChatsByUserId_resolved w p k Hk) in Hrun.
  injection Hrun as <- <-.
  destruct (page_of_fetched p k (chats w)) as [Hc1 _]; [lia|].
  rewrite Hc1 in Hpage |- *.
  set (S := orderBy_createdAt_desc (matching p k (chats w))) in *.
  set (n := Z.to_nat (limit p)) in *.
  (* the listing of the window is strictly sorted *)
  assert (Hstrict : forall q,
             (forall c, q c = true -> baseWhere (id p) (projectId p) c = true) ->
             StronglySorted (fun a b => chat_createdAt b < chat_createdAt a)
                            (orderBy_createdAt_desc (List.filter q (chats w)))).
  { intros q Hq. apply (sorted_strict chat_createdAt); [apply orderBy_createdAt_desc_sorted|].
    unfold orderBy_createdAt_desc. apply NoDup_map_sort.
    rewrite (filter_ext_bool q
               (fun c => q c && baseWhere (id p) (projectId p) c)).
    2: { intros c. destruct (q c) eqn:Hqc; [rewrite (Hq c Hqc)|]; reflexivity. }
    rewrite filter_both.
    apply NoDup_map_filter, Htimes. }
  assert (HS : StronglySorted (fun a b => chat_createdAt b < chat_createdAt a) S).
  { apply Hstrict. intros c Hc. apply andb_true_iff in Hc. tauto. }
  (* the last chat of the page is stored and matches *)
  assert (Hlast : In last (matching p k (chats w))).
  { unfold S, orderBy_createdAt_desc in Hpage.
    rewrite <- (sort_rows_In newer_first). eapply firstn_incl.
    rewrite Hpage. apply in_or_app. right. left. reflexivity. }
  apply matching_In in Hlast. destruct Hlast as (Hin & Hvis & Hcur).
  set (p2 := backward_from (id p) (projectId p) (limit p) (chat_id last)).
  assert (Hk2 : resolve_cursor p2 (chats w) = Some (Before last)).
  { unfold resolve_cursor, p2, backward_from. cbn [startingAfter endingBefore].
    rewrite (truthy_nonempty _ (Hne last Hin)).
    rewrite (find_chat_In _ _ Hids Hin). reflexivity. }
  eexists. split; [apply getChatsByUserId_resolved, Hk2|].
  destruct (page_of_fetched p2 (Before last) (chats w)) as [Hc2 _]; [simpl; lia|].
  rewrite Hc2. change (Z.to_nat (limit p2)) with n.
  assert (Hnext : orderBy_createdAt_desc (matching p2 (Before last) (chats w))
                  = skipn n S).
  { apply (strictly_sorted_unique chat_createdAt).
    - apply Hstrict. intros c Hc. apply andb_true_iff in Hc. tauto.
    - apply sorted_skipn, HS.
    - intros c. rewrite (rows_after_page S n init last HS Hpage).
      unfold S, orderBy_createdAt_desc. rewrite !sort_rows_In, !matching_In.
      cbn [cursor_constraint id projectId p2 backward_from].
      rewrite Z.ltb_lt. split.
      + intros (Hc & Hv & Hlt).
        split; [|exact Hlt]. split; [exact Hc|]. split; [exact Hv|].
        unfold resolve_cursor in Hk. rewrite Hnoafter in Hk.
        destruct (truthy (endingBefore p)) as [s|].
        * destruct (find_chat s (chats w)) as [a|]; simpl in Hk; [|discriminate].
          injection Hk as <-. simpl in Hcur |- *.
          apply Z.ltb_lt in Hcur. apply Z.ltb_lt. lia.
        * injection Hk as <-. reflexivity.
      + intros ((Hc & Hv & _) & Hlt). auto. }
  rewrite Hnext. apply firstn_twice.
Qed.

Lemma sample_times_distinct :
  List.NoDup (map chat_createdAt
                  (List.filter (baseWhere "alice" "p1") (chats sample_world))).
Proof.
  simpl. repeat (constructor; [simpl; intros H;
    repeat (destruct H as [H|H]; [discriminate H|]); destruct H|]).
  constructor.
Qed.

Lemma scrolling_continues_witness :
  getChatsByUserId (call 3 None None) sample_world
  = (Ok {| page_chats := [c8; c7] ++ [c6]; hasMore := true |}, sample_world)
  /\ exists page2,
       getChatsByUserId (backward_from "alice" "p1" 3 "c6") sample_world
       = (Ok page2, sample_world)
       /\ [c8; c7; c6] ++ page_chats page2 = [c8; c7; c6; c5; c4; c3].
Proof.
  assert (Hrun : getChatsByUserId (call 3 None None) sample_world
                 = (Ok {| page_chats := [c8; c7] ++ [c6]; hasMore := true |},
                    sample_world)) by reflexivity.
  split; [exact Hrun|].
  assert (H3 : 0 < limit (call 3 None None)) by (simpl; lia).
  destruct (scrolling_continues sample_world sample_world (call 3 None None) NoCursor
              _ [c8; c7] c6 H3 sample_ids_distinct sample_ids_nonempty
              sample_times_distinct eq_refl eq_refl Hrun eq_refl)
    as (page2 & Hnext & Hcat).
  exists page2. split; [exact Hnext | exact Hcat].
Defined.

(** ** getMessagesByChatId *)

(** With the store answering, the messages returned are those of the chat,
    all of them and no other, oldest first; nothing in the world changes. *)
Theorem getMessagesByChatId_returns (w : World) (chatId : string) :
  fault_messages (faults w) = None ->
  exists messages,
    getMessagesByChatId chatId w = (Ok messages, w)
    /\ (forall m, In m messages <-> In m (chatMessages w) /\ msg_chatId m = chatId)
    /\ List.length messages
       = List.length (List.filter (fun m => String.eqb (msg_chatId m) chatId)
                                  (chatMessages w))
    /\ StronglySorted (fun a b => msg_createdAt a <= msg_createdAt b) messages.
Proof.
  intros Hok. unfold getMessagesByChatId, chatMessages_findMany. rewrite Hok.
  eexists. split; [reflexivity|]. split; [|split].
  - intros m. unfold orderBy_createdAt_asc.
    rewrite sort_rows_In, filter_In, String.eqb_eq. tauto.
  - apply sort_rows_length.
  - apply orderBy_createdAt_asc_sorted.
Qed.

Lemma getMessagesByChatId_returns_witness :
  fault_messages (faults sample_world) = None
  /\ exists messages,
       getMessagesByChatId "c1" sample_world = (Ok messages, sample_world)
       /\ List.length messages = 2%nat.
Proof.
  split; [reflexivity|].
  destruct (getMessagesByChatId_returns sample_world "c1" eq_refl)
    as (messages & Hrun & _ & Hlen & _).
  exists messages. split; [exact Hrun | exact Hlen].
Defined.

(** ** The destination of an export *)

Lemma append_cons (x : ascii) (a b : string) :
  (String x a ++ b)%string = String x (a ++ b)%string.
Proof. reflexivity. Qed.

Lemma append_assoc (a b c : string) : ((a ++ b) ++ c = a ++ (b ++ c))%string.
Proof.
  induction a as [|x a IH]; [reflexivity|].
  rewrite !append_cons, IH. reflexivity.
Qed.

Lemma append_longer (a b : string) : b <> EmptyString -> (a ++ b)%string <> a.
Proof.
  intros Hb Heq.
  assert (Hlen : String.length (a ++ b) = String.length a) by (rewrite Heq; reflexivity).
  assert (Happ : forall s t, String.length (s ++ t) = (String.length s + String.length t)%nat).
  { clear. induction s as [|x s IH]; intros t; [reflexivity|].
    rewrite append_cons. simpl. rewrite IH. reflexivity. }
  rewrite Happ in Hlen. destruct b; [congruence | simpl in Hlen; lia].
Qed.

(** The file name does not separate its two parts: a project id that ends in
    [-x] with chat id [c], and the project id without that ending with chat
    id [x-c], are different exports with one and the same file name. *)
Theorem export_filename_collision (projectId x chatId : string) :
  (projectId ++ "-" ++ x)%string <> projectId
  /\ export_filename (projectId ++ "-" ++ x) chatId
     = export_filename projectId (x ++ "-" ++ chatId).
Proof.
  split.
  - apply append_longer. discriminate.
  - unfold export_filename.
    rewrite !append_assoc. reflexivity.
Qed.

(** ** The world after an export *)

Section ExportWorld.
Context `{Runtime}.

(** The export touches one path.  It leaves the tables, the console and every
    other file as they were, whether it returns or throws. *)
Theorem export_touches_one_path (w : World) (projectId chatId : string) :
  let (r, w') := exportChatDataset projectId chatId w in
  chats w' = chats w /\ chatMessages w' = chatMessages w
  /\ console w' = console w /\ faults w' = faults w
  /\ forall path, path <> export_path projectId chatId ->
                  files w' !! path = files w !! path.
Proof.
  destruct (exportChatDataset_run w projectId chatId)
    as [(e & _ & ->) | (conversations & _ & _ & _ & _ & _ & ->)];
    cbn [chats chatMessages console faults files set_files];
    repeat (split; [reflexivity|]); intros path Hpath.
  - unfold files_after_failure. destruct (fault_open_late (faults w)).
    + apply lookup_insert_ne. congruence.
    + apply lookup_delete_ne. congruence.
  - apply lookup_insert_ne. congruence.
Qed.


(** The project id names the file and nothing else: the export of a chat
    under two project ids fails alike or produces the same archive, at the
    two destinations.  No stored chat is consulted. *)
Theorem export_ignores_project (w : World) (projectId projectId' chatId : string) :
  match exportChatDataset projectId chatId w, exportChatDataset projectId' chatId w with
  | (Ok r, w1), (Ok r', w2) =>
      files w1 !! filePath r = files w2 !! filePath r'
      /\ is_Some (files w1 !! filePath r)
  | (Throw e, _), (Throw e', _) => e = e'
  | _, _ => False
  end.
Proof.
  destruct (exportChatDataset_run w projectId chatId)
    as [(e & Hfails & ->) | (conversations & H1 & H2 & H3 & H4 & H5 & ->)];
  destruct (exportChatDataset_run w projectId' chatId)
    as [(e' & Hfails' & ->) | (conversations' & H1' & H2' & H3' & H4' & H5' & ->)].
  - eapply export_fails_unique; eassumption.
  - destruct Hfails; congruence.
  - destruct Hfails'; congruence.
  - cbn [files set_files filePath]. rewrite !lookup_insert_eq.
    split; [congruence | eauto].
Qed.
End ExportWorld.

(** ** The turn of a message, exactly *)

Lemma array_find_Ok_split (items : list jsval) (found : jsval) :
  array_find is_text items = Ok found ->
  (exists pre rest, items = pre ++ found :: rest
                    /\ Forall (fun x => is_text x = Ok false) pre
                    /\ is_text found = Ok true)
  \/ (found = JUndefined /\ Forall (fun x => is_text x = Ok false) items).
Proof.
  induction items as [|x items IH]; simpl; intros Hfind.
  - right. split; [congruence | constructor].
  - destruct (is_text x) as [[|]|e] eqn:Hx; [| |discriminate].
    + injection Hfind as <-. left. exists [], items. auto.
    + destruct (IH Hfind) as [(pre & rest & -> & Hpre & Hfound) | [-> Hall]].
      * left. exists (x :: pre), rest. auto.
      * right. auto.
Qed.

Lemma array_find_app (pre rest : list jsval) (found : jsval) :
  Forall (fun x => is_text x = Ok false) pre ->
  is_text found = Ok true ->
  array_find is_text (pre ++ found :: rest) = Ok found.
Proof.
  induction 1 as [|x pre Hx _ IH]; simpl; intros Hfound.
  - rewrite Hfound. reflexivity.
  - rewrite Hx. apply IH, Hfound.
Qed.

Lemma is_text_true (part : jsval) :
  is_text part = Ok true -> exists props, part = JObject props.
Proof.
  destruct part; unfold is_text; cbn [get_prop and_then strict_eq_string];
    intros Ht; try discriminate. eauto.
Qed.

Lemma is_text_Throw (part : jsval) (e : exn) : is_text part = Throw e -> e = TypeError.
Proof.
  destruct part; unfold is_text; cbn [get_prop and_then]; intros He; congruence.
Qed.

Section TurnFacts.
Context `{Runtime}.

(** [format_item] returns exactly when the stored parts decode to an array
    in which a segment of type [text] is reached through parts that are
    neither [null] nor of type [text]; the turn then takes its [value] from
    that segment's [text] property, [undefined] if it has none, and nothing
    from the parts after it. *)
Theorem format_item_returns (item : ChatMessages) (turn : jsval) :
  format_item item = Ok turn <->
  exists pre props rest,
    JSON_parse (msg_parts item) = Some (JArray (pre ++ JObject props :: rest))
    /\ Forall (fun x => is_text x = Ok false) pre
    /\ is_text (JObject props) = Ok true
    /\ turn = JObject [("from", JString (from_of_role (msg_role item)));
                       ("value", own_prop "text" props)].
Proof.
  unfold format_item, call_find. fold is_text. split.
  - destruct (JSON_parse (msg_parts item)) as [parts|]; [|discriminate].
    destruct parts as [| | | | |items|]; simpl; try discriminate.
    destruct (array_find is_text items) as [found|e] eqn:Hfind; simpl; [|discriminate].
    apply array_find_Ok_split in Hfind.
    destruct Hfind as [(pre & rest & -> & Hpre & Hfound) | [-> _]]; [|discriminate].
    destruct (is_text_true _ Hfound) as [props ->].
    simpl. intros [= <-]. exists pre, props, rest. auto.
  - intros (pre & props & rest & -> & Hpre & Hfound & ->).
    simpl. rewrite (array_find_app pre rest _ Hpre Hfound). reflexivity.
Qed.

(** A [null] among the parts ahead of the first segment of type [text] makes
    the formatting throw, though a text segment may follow. *)
Theorem null_part_aborts (item : ChatMessages) (pre rest : list jsval) :
  JSON_parse (msg_parts item) = Some (JArray (pre ++ JNull :: rest)) ->
  existsb is_text_part pre = false ->
  format_item item = Throw TypeError.
Proof.
  intros Hparse Hpre. unfold format_item, call_find. rewrite Hparse. fold is_text.
  assert (Hfind : array_find is_text (pre ++ JNull :: rest) = Throw TypeError).
  { clear Hparse. induction pre as [|x pre IH]; simpl; [reflexivity|].
    simpl in Hpre. apply orb_false_iff in Hpre. destruct Hpre as [Hx Hpre].
    destruct (is_text x) as [b|e] eqn:Hix.
    - apply is_text_Ok in Hix. rewrite Hix, Hx. apply IH, Hpre.
    - rewrite (is_text_Throw _ _ Hix). reflexivity. }
  rewrite Hfind. reflexivity.
Qed.
End TurnFacts.

Lemma null_part_aborts_witness :
  JSON_parse (msg_parts m6)
  = Some (JArray ([] ++ JNull :: [JObject [("type", JString "text");
                                           ("text", JString "late")]]))
  /\ format_item m6 = Throw TypeError.
Proof.
  assert (Hparse : JSON_parse (msg_parts m6)
                   = Some (JArray ([] ++ JNull :: [JObject [("type", JString "text");
                                                            ("text", JString "late")]])))
    by reflexivity.
  split; [exact Hparse|].
  exact (null_part_aborts m6 [] _ Hparse eq_refl).
Defined.

(** ** Storage order and the export *)

Lemma filter_perm {A} (f : A -> bool) (l l' : list A) :
  Permutation l l' -> Permutation (List.filter f l) (List.filter f l').
Proof.
  induction 1 as [|x l l' _ IH|x y l|l l' l'' _ IH1 _ IH2]; simpl.
  - apply perm_nil.
  - destruct (f x); [apply perm_skip|]; exact IH.
  - destruct (f x), (f y); try apply Permutation_refl. apply perm_swap.
  - eapply Permutation_trans; eassumption.
Qed.

(** Messages created at different instants have one chronological order. *)
Lemma chronological_unique (l1 l2 : list ChatMessages) :
  StronglySorted (fun a b => msg_createdAt a <= msg_createdAt b) l1 ->
  StronglySorted (fun a b => msg_createdAt a <= msg_createdAt b) l2 ->
  List.NoDup (map msg_createdAt l1) ->
  Permutation l1 l2 ->
  l1 = l2.
Proof.
  intros Hs1 Hs2 Hnd Hperm.
  assert (Hnd2 : List.NoDup (map msg_createdAt l2)).
  { eapply Permutation_NoDup; [apply Permutation_map, Hperm | exact Hnd]. }
  assert (Hopp : forall l, List.NoDup (map msg_createdAt l) ->
                           List.NoDup (map (fun m => - msg_createdAt m) l)).
  { clear. induction l as [|a l IH]; simpl; intros Hnd; [constructor|].
    inversion Hnd as [|? ? Hnotin Hnd']; subst. constructor; [|auto].
    intros Hin. apply Hnotin. apply in_map_iff in Hin.
    destruct Hin as (x & Hx & Hxl). apply in_map_iff. exists x. split; [lia | exact Hxl]. }
  apply (strictly_sorted_unique (fun m => - msg_createdAt m)).
  - apply sorted_strict; [|apply Hopp, Hnd].
    eapply strongly_sorted_weaken; [|exact Hs1]. simpl. intros a b. lia.
  - apply sorted_strict; [|apply Hopp, Hnd2].
    eapply strongly_sorted_weaken; [|exact Hs2]. simpl. intros a b. lia.
  - intros c. split; apply Permutation_in; [|apply Permutation_sym]; exact Hperm.
Qed.

Section StorageOrder.
Context `{Runtime}.

(** Two worlds that store the same messages in different orders, and agree
    on the rest, export a chat alike, provided no two messages of the chat
    were created at the same instant. *)
Theorem export_ignores_storage_order (w1 w2 : World) (projectId chatId : string) :
  Permutation (chatMessages w1) (chatMessages w2) ->
  List.NoDup (map msg_createdAt
                  (List.filter (fun m => String.eqb (msg_chatId m) chatId)
                               (chatMessages w1))) ->
  faults w2 = faults w1 ->
  files w2 = files w1 ->
  fst (exportChatDataset projectId chatId w2) = fst (exportChatDataset projectId chatId w1)
  /\ files (snd (exportChatDataset projectId chatId w2))
     = files (snd (exportChatDataset projectId chatId w1)).
Proof.
  intros Hperm Hnd Hfaults Hfiles.
  assert (Hmsgs : chat_messages_of chatId w2 = chat_messages_of chatId w1).
  { symmetry. unfold chat_messages_of, orderBy_createdAt_asc.
    apply chronological_unique.
    - apply orderBy_createdAt_asc_sorted.
    - apply orderBy_createdAt_asc_sorted.
    - apply NoDup_map_sort, Hnd.
    - eapply Permutation_trans; [apply sort_rows_perm|].
      eapply Permutation_trans; [apply filter_perm, Hperm|].
      apply Permutation_sym, sort_rows_perm. }
  destruct (exportChatDataset_run w1 projectId chatId)
    as [(e1 & Hfails1 & ->) | (cs1 & A1 & A2 & A3 & A4 & A5 & ->)];
  destruct (exportChatDataset_run w2 projectId chatId)
    as [(e2 & Hfails2 & ->) | (cs2 & B1 & B2 & B3 & B4 & B5 & ->)];
    rewrite ?Hfaults, ?Hmsgs in *; cbn [fst snd files set_files].
  - assert (Hfails2' : export_fails w1 chatId e2).
    { destruct Hfails2;
        [ apply fails_fetch | apply fails_format | eapply fails_dataset_entry
        | eapply fails_info_entry | eapply fails_finalize ];
        rewrite <- ?Hfaults, <- ?Hmsgs; eassumption. }
    rewrite (export_fails_unique _ _ _ _ Hfails2' Hfails1).
    unfold files_after_failure, handed_over. rewrite Hfaults, Hmsgs, Hfiles. auto.
  - exfalso. destruct Hfails1; congruence.
  - exfalso. destruct Hfails2; rewrite ?Hfaults, ?Hmsgs in *; congruence.
  - assert (cs2 = cs1) as -> by congruence. rewrite Hfiles. auto.
Qed.
End StorageOrder.

(** ** Rows addressed by a key *)

Lemma find_None_existsb {A} (q : A -> bool) (l : list A) :
  find q l = None <-> existsb q l = false.
Proof.
  induction l as [|x l IH]; simpl; [tauto|].
  destruct (q x); simpl; [split; discriminate | exact IH].
Qed.

Lemma replace_first_length {A} (q : A -> bool) (row : A) (l : list A) :
  List.length (replace_first q row l) = List.length l.
Proof.
  induction l as [|x l IH]; simpl; [reflexivity|].
  destruct (q x); simpl; [reflexivity | rewrite IH; reflexivity].
Qed.

(** After a write the key finds the row written. *)
Lemma find_replace_first {A} (q : A -> bool) (row x : A) (l : list A) :
  q row = true -> find q l = Some x -> find q (replace_first q row l) = Some row.
Proof.
  intros Hrow. induction l as [|y l IH]; simpl; [discriminate|].
  destruct (q y) eqn:Hy; simpl.
  - intros _. rewrite Hrow. reflexivity.
  - rewrite Hy. exact IH.
Qed.

(** A search that tells the old row and the new one apart from neither finds
    what it found before. *)
Lemma find_replace_first_other {A} (q q' : A -> bool) (row : A) (l : list A) :
  q' row = false -> (forall x, q x = true -> q' x = false) ->
  find q' (replace_first q row l) = find q' l.
Proof.
  intros Hrow Hother. induction l as [|y l IH]; simpl; [reflexivity|].
  destruct (q y) eqn:Hy; simpl.
  - rewrite Hrow, (Hother y Hy). reflexivity.
  - rewrite IH. reflexivity.
Qed.

Lemma map_replace_first {A B} (key : A -> B) (q : A -> bool) (row : A) (l : list A) :
  (forall x, q x = true -> key x = key row) ->
  map key (replace_first q row l) = map key l.
Proof.
  intros Hkey. induction l as [|y l IH]; simpl; [reflexivity|].
  destruct (q y) eqn:Hy; simpl; [rewrite (Hkey y Hy) | rewrite IH]; reflexivity.
Qed.

(** A write of the row that is there changes nothing. *)
Lemma replace_first_same {A} (q : A -> bool) (row : A) (l : list A) :
  find q l = Some row -> replace_first q row l = l.
Proof.
  induction l as [|y l IH]; simpl; [reflexivity|].
  destruct (q y) eqn:Hy.
  - intros [= ->]. reflexivity.
  - intros Hf. rewrite (IH Hf). reflexivity.
Qed.

Lemma find_app_None {A} (q : A -> bool) (l : list A) (x : A) :
  find q l = None -> find q (l ++ [x]) = (if q x then Some x else None).
Proof.
  induction l as [|y l IH]; simpl; [reflexivity|].
  destruct (q y); [discriminate | exact IH].
Qed.

Lemma find_app_other {A} (q : A -> bool) (l : list A) (x : A) :
  q x = false -> find q (l ++ [x]) = find q l.
Proof.
  intros Hx. induction l as [|y l IH]; simpl; [rewrite Hx; reflexivity|].
  destruct (q y); [reflexivity | exact IH].
Qed.

Lemma NoDup_snoc {A} (l : list A) (x : A) :
  List.NoDup l -> ~ In x l -> List.NoDup (l ++ [x]).
Proof.
  intros Hnd Hx. eapply Permutation_NoDup; [apply Permutation_cons_append|].
  constructor; assumption.
Qed.

Lemma has_key_true (chatId messageId : string) (v : ChatMessageVote) :
  has_key chatId messageId v = true <-> vote_key v = (chatId, messageId).
Proof.
  unfold has_key, vote_key. rewrite andb_true_iff, !String.eqb_eq.
  split; [intros [-> ->]; reflexivity | intros [= -> ->]; auto].
Qed.

Lemma has_key_false (chatId messageId : string) (v : ChatMessageVote) :
  has_key chatId messageId v = false <-> vote_key v <> (chatId, messageId).
Proof.
  rewrite <- has_key_true. destruct (has_key chatId messageId v); split; congruence.
Qed.

(** ** voteMessage *)

Section VoteFacts.
Context `{Schema}.

(** The vote is there: it is updated in place. *)
Lemma voteMessage_existing (s : Store) (chatId messageId type_ : string)
    (v : ChatMessageVote) :
  find (has_key chatId messageId) (chatMessageVote s) = Some v ->
  voteMessage chatId messageId type_ s
  = (Ok (vote_of chatId messageId type_),
     set_votes (replace_first (has_key chatId messageId)
                              (vote_of chatId messageId type_)
                              (chatMessageVote s)) s).
Proof.
  intros Hfind. unfold voteMessage, try_catchS, bindS, vote_findUnique, vote_update.
  rewrite Hfind. cbv beta iota zeta. rewrite Hfind.
  apply find_some in Hfind. destruct Hfind as [_ Hkey].
  apply has_key_true in Hkey. injection Hkey as -> ->. reflexivity.
Qed.

(** The vote is not there: it is added, unless the schema refuses it, in
    which case the error is logged and thrown. *)
Lemma voteMessage_new (s : Store) (chatId messageId type_ : string) :
  find (has_key chatId messageId) (chatMessageVote s) = None ->
  voteMessage chatId messageId type_ s
  = match vote_refused s (vote_of chatId messageId type_) with
    | None =>
        (Ok (vote_of chatId messageId type_),
         set_votes (chatMessageVote s ++ [vote_of chatId messageId type_]) s)
    | Some e =>
        (Throw e,
         set_world (set_console (console (world s)
                                 ++ ["Failed to vote message in database"%string])
                                (world s)) s)
    end.
Proof.
  intros Hfind. unfold voteMessage, try_catchS, bindS, vote_findUnique, vote_create.
  rewrite Hfind. cbv beta iota zeta. fold (vote_of chatId messageId type_).
  cbn [vote_chatId vote_messageId vote_of].
  rewrite (proj1 (find_None_existsb _ _) Hfind).
  destruct (vote_refused s (vote_of chatId messageId type_)); reflexivity.
Qed.

(** A vote that the schema accepts, or that replaces an earlier one, is
    recorded: the call returns it, the pair then finds it, the votes of the
    chat include it, and the table has grown by one row or by none. *)
Theorem vote_recorded (s : Store) (chatId messageId type_ : string) :
  (find (has_key chatId messageId) (chatMessageVote s) = None ->
   vote_refused s (vote_of chatId messageId type_) = None) ->
  exists s',
    voteMessage chatId messageId type_ s = (Ok (vote_of chatId messageId type_), s')
    /\ world s' = world s
    /\ find (has_key chatId messageId) (chatMessageVote s')
       = Some (vote_of chatId messageId type_)
    /\ (exists votes, getVotesByChatId chatId s' = (Ok votes, s')
                      /\ In (vote_of chatId messageId type_) votes)
    /\ List.length (chatMessageVote s')
       = (List.length (chatMessageVote s)
          + match find (has_key chatId messageId) (chatMessageVote s) with
            | Some _ => 0
            | None => 1
            end)%nat.
Proof.
  intros Haccept.
  assert (Hkey : has_key chatId messageId (vote_of chatId messageId type_) = true).
  { apply has_key_true. reflexivity. }
  assert (Hlisted : forall s',
             find (has_key chatId messageId) (chatMessageVote s')
             = Some (vote_of chatId messageId type_) ->
             exists votes, getVotesByChatId chatId s' = (Ok votes, s')
                           /\ In (vote_of chatId messageId type_) votes).
  { intros s' Hf. eexists. split; [reflexivity|].
    apply find_some in Hf. apply filter_In. split; [tauto|].
    apply String.eqb_refl. }
  destruct (find (has_key chatId messageId) (chatMessageVote s)) as [v|] eqn:Hfind.
  - rewrite (voteMessage_existing s _ _ _ v Hfind).
    eexists. split; [reflexivity|]. split; [reflexivity|].
    assert (Hf : find (has_key chatId messageId)
                      (chatMessageVote
                         (set_votes (replace_first (has_key chatId messageId)
                                       (vote_of chatId messageId type_)
                                       (chatMessageVote s)) s))
                 = Some (vote_of chatId messageId type_)).
    { cbn [chatMessageVote set_votes]. eapply find_replace_first; eassumption. }
    split; [exact Hf|]. split; [apply Hlisted, Hf|].
    cbn [chatMessageVote set_votes]. rewrite replace_first_length. lia.
  - rewrite (voteMessage_new s _ _ _ Hfind), (Haccept eq_refl).
    eexists. split; [reflexivity|]. split; [reflexivity|].
    assert (Hf : find (has_key chatId messageId)
                      (chatMessageVote
                         (set_votes (chatMessageVote s ++ [vote_of chatId messageId type_]) s))
                 = Some (vote_of chatId messageId type_)).
    { cbn [chatMessageVote set_votes]. rewrite (find_app_None _ _ _ Hfind), Hkey.
      reflexivity. }
    split; [exact Hf|]. split; [apply Hlisted, Hf|].
    cbn [chatMessageVote set_votes]. rewrite length_app. reflexivity.
Qed.


(** At most one vote per message of a chat: the call keeps the keys of the
    table distinct, whatever its outcome. *)
Theorem vote_keeps_keys_distinct (s : Store) (chatId messageId type_ : string) :
  List.NoDup (map vote_key (chatMessageVote s)) ->
  List.NoDup (map vote_key (chatMessageVote (snd (voteMessage chatId messageId type_ s)))).
Proof.
  intros Hnd.
  destruct (find (has_key chatId messageId) (chatMessageVote s)) as [v|] eqn:Hfind.
  - rewrite (voteMessage_existing s _ _ _ v Hfind). cbn [snd chatMessageVote set_votes].
    rewrite map_replace_first; [exact Hnd|].
    intros x Hx. apply has_key_true in Hx. exact Hx.
  - rewrite (voteMessage_new s _ _ _ Hfind).
    destruct (vote_refused s (vote_of chatId messageId type_));
      cbn [snd chatMessageVote set_votes set_world]; [exact Hnd|].
    rewrite map_app. simpl.
    apply NoDup_snoc; [exact Hnd|].
    intros Hin. apply in_map_iff in Hin. destruct Hin as (x & Hkx & Hx).
    apply find_None_existsb in Hfind.
    assert (Hex : existsb (has_key chatId messageId) (chatMessageVote s) = true).
    { apply existsb_exists. exists x. split; [exact Hx|].
      apply has_key_true. exact Hkx. }
    congruence.
Qed.

(** The votes on other messages are not touched. *)
Theorem vote_leaves_others (s : Store) (chatId messageId type_ : string)
    (chatId' messageId' : string) :
  (chatId', messageId') <> (chatId, messageId) ->
  find (has_key chatId' messageId')
       (chatMessageVote (snd (voteMessage chatId messageId type_ s)))
  = find (has_key chatId' messageId') (chatMessageVote s).
Proof.
  intros Hother.
  assert (Hnew : has_key chatId' messageId' (vote_of chatId messageId type_) = false).
  { apply has_key_false. unfold vote_key, vote_of. simpl. congruence. }
  destruct (find (has_key chatId messageId) (chatMessageVote s)) as [v|] eqn:Hfind.
  - rewrite (voteMessage_existing s _ _ _ v Hfind). cbn [snd chatMessageVote set_votes].
    apply find_replace_first_other; [exact Hnew|].
    intros x Hx. apply has_key_true in Hx. apply has_key_false. congruence.
  - rewrite (voteMessage_new s _ _ _ Hfind).
    destruct (vote_refused s (vote_of chatId messageId type_));
      cbn [snd chatMessageVote set_votes set_world]; [reflexivity|].
    apply find_app_other, Hnew.
Qed.

(** Once a vote on a message is recorded, a further vote on it always
    returns: it replaces the vote where it stands, so the table keeps its
    keys and their order; a vote of the same type leaves the store as it
    is. *)
Theorem vote_again (s s1 : Store) (chatId messageId type1 type2 : string)
    (v : ChatMessageVote) :
  voteMessage chatId messageId type1 s = (Ok v, s1) ->
  exists s2,
    voteMessage chatId messageId type2 s1 = (Ok (vote_of chatId messageId type2), s2)
    /\ map vote_key (chatMessageVote s2) = map vote_key (chatMessageVote s1)
    /\ (String.eqb type2 "up" = String.eqb type1 "up" -> s2 = s1).
Proof.
  intros Hfirst.
  assert (Hthere : find (has_key chatId messageId) (chatMessageVote s1)
                   = Some (vote_of chatId messageId type1)).
  { assert (Hkey : has_key chatId messageId (vote_of chatId messageId type1) = true)
      by (apply has_key_true; reflexivity).
    destruct (find (has_key chatId messageId) (chatMessageVote s)) as [v0|] eqn:Hfind.
    - rewrite (voteMessage_existing s _ _ _ v0 Hfind) in Hfirst.
      injection Hfirst as _ <-. cbn [chatMessageVote set_votes].
      eapply find_replace_first; eassumption.
    - rewrite (voteMessage_new s _ _ _ Hfind) in Hfirst.
      destruct (vote_refused s (vote_of chatId messageId type1)); [discriminate|].
      injection Hfirst as _ <-. cbn [chatMessageVote set_votes].
      rewrite (find_app_None _ _ _ Hfind), Hkey. reflexivity. }
  rewrite (voteMessage_existing s1 _ _ _ _ Hthere).
  eexists. split; [reflexivity|]. split.
  - cbn [chatMessageVote set_votes]. apply map_replace_first.
    intros x Hx. apply has_key_true in Hx. exact Hx.
  - intros Hsame.
    assert (Hv : vote_of chatId messageId type2 = vote_of chatId messageId type1)
      by (unfold vote_of; rewrite Hsame; reflexivity).
    rewrite Hv, (replace_first_same _ _ _ Hthere).
    destruct s1. reflexivity.
Qed.
End VoteFacts.

Lemma vote_recorded_witness :
  (find (has_key "c1" "m1") (chatMessageVote sample_store) = None ->
   @vote_refused plain_schema sample_store (vote_of "c1" "m1" "up") = None)
  /\ exists s',
       @voteMessage plain_schema "c1" "m1" "up" sample_store
       = (Ok (vote_of "c1" "m1" "up"), s')
       /\ find (has_key "c1" "m1") (chatMessageVote s') = Some (vote_of "c1" "m1" "up").
Proof.
  assert (Haccept : find (has_key "c1" "m1") (chatMessageVote sample_store) = None ->
                    @vote_refused plain_schema sample_store (vote_of "c1" "m1" "up") = None)
    by (intros _; reflexivity).
  split; [exact Haccept|].
  destruct (@vote_recorded plain_schema sample_store "c1" "m1" "up" Haccept)
    as (s' & Hrun & _ & Hfind & _).
  exists s'. split; [exact Hrun | exact Hfind].
Defined.


Lemma sample_votes_distinct : List.NoDup (map vote_key (chatMessageVote sample_store)).
Proof.
  simpl. repeat (constructor; [simpl; intros Hin;
    repeat (destruct Hin as [Hin|Hin]; [discriminate Hin|]); destruct Hin|]).
  constructor.
Qed.

Lemma vote_keeps_keys_distinct_witness :
  List.NoDup (map vote_key (chatMessageVote sample_store))
  /\ List.NoDup
       (map vote_key
            (chatMessageVote (snd (@voteMessage plain_schema "c1" "m1" "up" sample_store)))).
Proof.
  split; [exact sample_votes_distinct|].
  exact (@vote_keeps_keys_distinct plain_schema sample_store "c1" "m1" "up"
           sample_votes_distinct).
Defined.

Lemma vote_leaves_others_witness :
  ("c2"%string, "m4"%string) <> ("c1"%string, "m2"%string)
  /\ find (has_key "c2" "m4")
          (chatMessageVote (snd (@voteMessage plain_schema "c1" "m2" "down" sample_store)))
     = Some v2.
Proof.
  assert (Hother : ("c2"%string, "m4"%string) <> ("c1"%string, "m2"%string))
    by discriminate.
  split; [exact Hother|].
  rewrite (@vote_leaves_others plain_schema sample_store "c1" "m2" "down" "c2" "m4" Hother).
  reflexivity.
Defined.

Lemma vote_again_witness :
  @voteMessage plain_schema "c1" "m1" "up" sample_store
  = (Ok (vote_of "c1" "m1" "up"),
     set_votes [v1; v2; vote_of "c1" "m1" "up"] sample_store)
  /\ exists s2,
       @voteMessage plain_schema "c1" "m1" "down"
         (set_votes [v1; v2; vote_of "c1" "m1" "up"] sample_store)
       = (Ok (vote_of "c1" "m1" "down"), s2)
       /\ map vote_key (chatMessageVote s2)
          = [("c1", "m2"); ("c2", "m4"); ("c1", "m1")]%string.
Proof.
  assert (Hfirst : @voteMessage plain_schema "c1" "m1" "up" sample_store
                   = (Ok (vote_of "c1" "m1" "up"),
                      set_votes [v1; v2; vote_of "c1" "m1" "up"] sample_store))
    by reflexivity.
  split; [exact Hfirst|].
  destruct (@vote_again plain_schema sample_store _ "c1" "m1" "up" "down" _ Hfirst)
    as (s2 & Hrun & Hkeys & _).
  exists s2. split; [exact Hrun | exact Hkeys].
Defined.

Lemma sample_messages_swapped :
  Permutation (chatMessages sample_world) (chatMessages sample_world_swapped).
Proof. apply perm_swap. Qed.

Lemma export_ignores_storage_order_witness :
  Permutation (chatMessages sample_world) (chatMessages sample_world_swapped)
  /\ fst (exportChatDataset "p1" "c1" sample_world_swapped)
     = fst (exportChatDataset "p1" "c1" sample_world).
Proof.
  split; [exact sample_messages_swapped|].
  refine (proj1 (export_ignores_storage_order sample_world sample_world_swapped
                   "p1" "c1" sample_messages_swapped _ eq_refl eq_refl)).
  simpl. repeat (constructor; [simpl; intros Hin;
    repeat (destruct Hin as [Hin|Hin]; [discriminate Hin|]); destruct Hin|]).
  constructor.
Defined.

(** ** create, getInfoById, updateChatVisibleById *)

Lemma getInfoById_run (w : World) (cid : string) :
  getInfoById cid w = (Ok (find_chat cid (chats w)), w).
Proof. reflexivity. Qed.

Lemma same_id_same_chat (rows : list Chat) (a b : Chat) :
  List.NoDup (map chat_id rows) -> In a rows -> In b rows ->
  chat_id a = chat_id b -> a = b.
Proof.
  intros Hnd Ha Hb Hid.
  pose proof (find_chat_In rows a Hnd Ha) as Hfa.
  pose proof (find_chat_In rows b Hnd Hb) as Hfb.
  rewrite Hid in Hfa. congruence.
Qed.

Lemma has_id_true (cid : string) (c : Chat) : has_id cid c = true <-> chat_id c = cid.
Proof. unfold has_id. apply String.eqb_eq. Qed.

Lemma has_id_other (cid cid' : string) (c : Chat) :
  cid' <> cid -> has_id cid c = true -> has_id cid' c = false.
Proof.
  intros Hne Hc. apply has_id_true in Hc.
  destruct (has_id cid' c) eqn:Hc'; [|reflexivity].
  apply has_id_true in Hc'. congruence.
Qed.

Lemma find_chat_has_id (cid : string) (rows : list Chat) :
  find_chat cid rows = find (has_id cid) rows.
Proof. reflexivity. Qed.

Section ChatFacts.
Context `{Schema}.

(** A chat created under an id that is free, and that the schema accepts,
    is stored as given: [getInfoById] then returns it for its id and what it
    returned before for every other id, and nothing else has changed. *)
Theorem create_then_getInfoById (w : World) (chat : Chat) :
  find_chat (chat_id chat) (chats w) = None ->
  chat_refused w chat = None ->
  exists w',
    create chat w = (Ok chat, w')
    /\ getInfoById (chat_id chat) w' = (Ok (Some chat), w')
    /\ (forall cid, cid <> chat_id chat -> getInfoById cid w' = (Ok (find_chat cid (chats w)), w'))
    /\ chatMessages w' = chatMessages w /\ files w' = files w
    /\ console w' = console w.
Proof.
  intros Hfree Haccept. unfold create, chat_create.
  rewrite find_chat_has_id in Hfree.
  rewrite (proj1 (find_None_existsb _ _) Hfree), Haccept.
  eexists. split; [reflexivity|]. rewrite !getInfoById_run.
  cbn [chats set_chats chatMessages files console]. split; [|split; [|auto]].
  - rewrite find_chat_has_id, (find_app_None _ _ _ Hfree).
    unfold has_id. rewrite String.eqb_refl. reflexivity.
  - intros cid Hcid. rewrite getInfoById_run. cbn [chats set_chats].
    rewrite !find_chat_has_id, find_app_other; [reflexivity|].
    unfold has_id. apply String.eqb_neq. congruence.
Qed.

(** [create] and [updateChatVisibleById] keep the ids of the stored chats
    distinct, whatever their outcome. *)
Theorem chat_ids_stay_distinct (w : World) :
  List.NoDup (map chat_id (chats w)) ->
  (forall chat, List.NoDup (map chat_id (chats (snd (create chat w)))))
  /\ (forall cid v,
        List.NoDup (map chat_id (chats (snd (updateChatVisibleById cid v w))))).
Proof.
  intros Hnd. split.
  - intros chat. unfold create, chat_create.
    destruct (existsb (has_id (chat_id chat)) (chats w)) eqn:Hex; [exact Hnd|].
    destruct (chat_refused w chat); [exact Hnd|].
    cbn [snd chats set_chats]. rewrite map_app. simpl.
    apply NoDup_snoc; [exact Hnd|].
    intros Hin. apply in_map_iff in Hin. destruct Hin as (x & Hid & Hx).
    assert (existsb (has_id (chat_id chat)) (chats w) = true).
    { apply existsb_exists. exists x. split; [exact Hx | apply has_id_true, Hid]. }
    congruence.
  - intros cid v. unfold updateChatVisibleById, chat_update_visibility.
    destruct (find (has_id cid) (chats w)) as [c|] eqn:Hfind; [|exact Hnd].
    cbn [snd chats set_chats].
    rewrite map_replace_first; [exact Hnd|].
    intros x Hx. apply has_id_true in Hx. apply find_some in Hfind.
    destruct Hfind as [_ Hc]. apply has_id_true in Hc. simpl. congruence.
Qed.

(** A chat created later than every stored chat heads the first page of
    every caller who can see it. *)
Theorem created_chat_heads_listing (w : World) (chat : Chat) (p : PaginationParams) :
  find_chat (chat_id chat) (chats w) = None ->
  chat_refused w chat = None ->
  (forall c, In c (chats w) -> chat_createdAt c < chat_createdAt chat) ->
  visible_to (id p) (projectId p) chat ->
  cursor_used p = None ->
  0 < limit p ->
  exists w' page rest,
    create chat w = (Ok chat, w')
    /\ getChatsByUserId p w' = (Ok page, w')
    /\ page_chats page = chat :: rest.
Proof.
  intros Hfree Haccept Hnewest Hvis Hnocursor HL.
  unfold create, chat_create. rewrite find_chat_has_id in Hfree.
  rewrite (proj1 (find_None_existsb _ _) Hfree), Haccept.
  set (w' := set_chats (chats w ++ [chat]) w).
  assert (Hk : resolve_cursor p (chats w') = Some NoCursor).
  { unfold resolve_cursor. unfold cursor_used in Hnocursor.
    destruct (truthy (startingAfter p)); [discriminate|].
    rewrite Hnocursor. reflexivity. }
  destruct (page_of_fetched p NoCursor (chats w')) as [Hpage _]; [lia|].
  set (S := orderBy_createdAt_desc (matching p NoCursor (chats w'))) in *.
  assert (Hin : In chat S).
  { unfold S, orderBy_createdAt_desc. rewrite sort_rows_In, matching_In.
    split; [|auto]. unfold w'. cbn [chats set_chats].
    apply in_or_app. right. left. reflexivity. }
  pose proof (orderBy_createdAt_desc_sorted (matching p NoCursor (chats w'))) as Hs.
  fold S in Hs.
  assert (Hmembers : forall c, In c S -> In c (chats w) \/ c = chat).
  { intros c Hc. unfold S, orderBy_createdAt_desc in Hc.
    rewrite sort_rows_In, matching_In in Hc. destruct Hc as [Hc _].
    unfold w' in Hc. cbn [chats set_chats] in Hc. apply in_app_or in Hc.
    destruct Hc as [Hc|[Hc|[]]]; auto. }
  destruct S as [|a S'] eqn:HS; [destruct Hin|].
  assert (Ha : a = chat).
  { destruct (Hmembers a (or_introl eq_refl)) as [Hold|Heq]; [|exact Heq].
    exfalso. specialize (Hnewest a Hold).
    apply StronglySorted_inv in Hs. destruct Hs as [_ Hall].
    rewrite List.Forall_forall in Hall.
    destruct Hin as [Heq|Hin]; [subst a; lia|].
    specialize (Hall chat Hin). simpl in Hall. lia. }
  subst a.
  exists w', (page_of (limit p) (fetched_rows p NoCursor (chats w'))),
    (firstn (Nat.pred (Z.to_nat (limit p))) S').
  split; [reflexivity|]. split; [apply getChatsByUserId_resolved, Hk|].
  rewrite Hpage.
  destruct (Z.to_nat (limit p)) as [|n] eqn:Hn; [lia|]. reflexivity.
Qed.

(** [updateChatVisibleById] on a stored chat returns the chat with the new
    visibility and nothing else changed, and stores it in the place of the
    old one: [getInfoById] returns it, the other chats are as before. *)
Theorem updateChatVisibleById_updates (w : World) (cid : string)
    (v : ChatVisibilityType) (c : Chat) :
  find_chat cid (chats w) = Some c ->
  exists w',
    updateChatVisibleById cid v w = (Ok (with_visibility v c), w')
    /\ getInfoById cid w' = (Ok (Some (with_visibility v c)), w')
    /\ (forall cid', cid' <> cid ->
          getInfoById cid' w' = (Ok (find_chat cid' (chats w)), w'))
    /\ map chat_id (chats w') = map chat_id (chats w)
    /\ chatMessages w' = chatMessages w /\ files w' = files w
    /\ console w' = console w.
Proof.
  intros Hfind. unfold updateChatVisibleById, chat_update_visibility.
  rewrite find_chat_has_id in Hfind.
  rewrite Hfind. fold (with_visibility v c).
  assert (Hc : has_id cid c = true) by (apply find_some in Hfind; tauto).
  assert (Hc' : has_id cid (with_visibility v c) = true) by exact Hc.
  eexists. split; [reflexivity|]. rewrite getInfoById_run.
  cbn [chats set_chats chatMessages files console].
  split; [|split; [|split; [|auto]]].
  - rewrite find_chat_has_id.
    rewrite (find_replace_first _ _ c _ Hc' Hfind). reflexivity.
  - intros cid' Hne. rewrite getInfoById_run. cbn [chats set_chats].
    rewrite !find_chat_has_id.
    rewrite find_replace_first_other; [reflexivity | |].
    + apply (has_id_other cid cid' _ Hne Hc').
    + intros x Hx. apply (has_id_other cid cid' _ Hne Hx).
  - apply map_replace_first. intros x Hx.
    apply has_id_true in Hx. apply has_id_true in Hc. simpl. congruence.
Qed.

(** Once a chat is made private, no listing of another user returns it,
    whatever the call. *)
Theorem private_chat_is_hidden (w w1 w2 : World) (cid : string) (c : Chat)
    (p : PaginationParams) (page : Page) :
  List.NoDup (map chat_id (chats w)) ->
  updateChatVisibleById cid PRIVATE w = (Ok c, w1) ->
  id p <> chat_userId c ->
  getChatsByUserId p w1 = (Ok page, w2) ->
  forall x, In x (page_chats page) -> chat_id x <> cid.
Proof.
  intros Hnd Hupd Hother Hrun x Hx Hid.
  unfold updateChatVisibleById, chat_update_visibility in Hupd.
  destruct (find (has_id cid) (chats w)) as [c0|] eqn:Hfind; [|discriminate].
  injection Hupd as <- <-.
  assert (Hc0 : has_id cid c0 = true) by (apply find_some in Hfind; tauto).
  set (c' := {| chat_id := chat_id c0; chat_title := chat_title c0;
                chat_userId := chat_userId c0; chat_projectId := chat_projectId c0;
                chat_visibility := PRIVATE; chat_createdAt := chat_createdAt c0 |}) in *.
  set (w1 := set_chats (replace_first (has_id cid) c' (chats w)) w) in *.
  assert (Hkeys : map chat_id (chats w1) = map chat_id (chats w)).
  { unfold w1. cbn [chats set_chats]. apply map_replace_first.
    intros y Hy. apply has_id_true in Hy. apply has_id_true in Hc0. simpl. congruence. }
  assert (Hnd1 : List.NoDup (map chat_id (chats w1))) by (rewrite Hkeys; exact Hnd).
  assert (Hstored : In c' (chats w1)).
  { assert (Hf : find (has_id cid) (chats w1) = Some c').
    { unfold w1. cbn [chats set_chats].
      eapply find_replace_first; [exact Hc0 | exact Hfind]. }
    apply find_some in Hf. tauto. }
  destruct (resolve_cursor p (chats w1)) as [k|] eqn:Hk.
  2: { destruct (getChatsByUserId_unresolved w1 p Hk) as (s & _ & _ & Hthrow).
       rewrite Hthrow in Hrun. discriminate. }
  rewrite (getChatsByUserId_resolved w1 p k Hk) in Hrun.
  injection Hrun as <- _.
  apply page_sound, matching_In in Hx. destruct Hx as (Hin & Hvis & _).
  assert (x = c').
  { apply (same_id_same_chat (chats w1)); try assumption.
    apply has_id_true in Hc0. simpl. congruence. }
  subst x. destruct Hvis as [_ [Hown|Hpub]]; [|discriminate Hpub].
  apply Hother. simpl in Hown. simpl. congruence.
Qed.
End ChatFacts.

(** ** insertChatMessage *)

Lemma insert_row_last {A} (before : A -> A -> bool) (a m : A) (l : list A) :
  before a m = true ->
  insert_row before a (l ++ [m]) = insert_row before a l ++ [m].
Proof.
  intros Ham. induction l as [|b l IH]; simpl.
  - rewrite Ham. reflexivity.
  - destruct (before a b); [reflexivity | rewrite IH; reflexivity].
Qed.

(** A row that comes after all the others is sorted last. *)
Lemma sort_rows_last {A} (before : A -> A -> bool) (m : A) (l : list A) :
  (forall a, In a l -> before a m = true) ->
  sort_rows before (l ++ [m]) = sort_rows before l ++ [m].
Proof.
  induction l as [|a l IH]; simpl; intros Hall; [reflexivity|].
  rewrite IH by auto. apply insert_row_last. auto.
Qed.

Section MessageFacts.
Context `{Schema}.

(** A message that the schema accepts, created later than the stored
    messages of its chat, is read back as the last message of the chat; what
    is read for the other chats is as before. *)
Theorem inserted_message_is_read_last (w : World) (message : ChatMessages) :
  message_refused w message = None ->
  fault_messages (faults w) = None ->
  (forall m, In m (chatMessages w) -> msg_chatId m = msg_chatId message ->
             msg_createdAt m < msg_createdAt message) ->
  exists w',
    insertChatMessage message w = (Ok message, w')
    /\ getMessagesByChatId (msg_chatId message) w'
       = (Ok (chat_messages_of (msg_chatId message) w ++ [message]), w')
    /\ forall chatId, chatId <> msg_chatId message ->
         getMessagesByChatId chatId w' = (Ok (chat_messages_of chatId w), w').
Proof.
  intros Haccept Hstore Hlater.
  unfold insertChatMessage, chatMessages_create. rewrite Haccept.
  eexists. split; [reflexivity|].
  unfold getMessagesByChatId, chatMessages_findMany, chat_messages_of.
  cbn [faults chatMessages set_chatMessages]. rewrite Hstore.
  split.
  - f_equal. f_equal. rewrite List.filter_app. simpl. rewrite String.eqb_refl.
    unfold orderBy_createdAt_asc. apply sort_rows_last.
    intros a Ha. apply filter_In in Ha. destruct Ha as [Ha Hchat].
    apply String.eqb_eq in Hchat. specialize (Hlater a Ha Hchat).
    unfold older_first. apply Z.leb_le. lia.
  - intros chatId Hother. f_equal. f_equal. rewrite List.filter_app. simpl.
    destruct (String.eqb_spec (msg_chatId message) chatId) as [Heq|_];
      [congruence|].
    rewrite app_nil_r. reflexivity.
Qed.
End MessageFacts.

(** ** remove *)

Lemma find_remove_first_other {A} (q q' : A -> bool) (l : list A) :
  (forall x, q x = true -> q' x = false) ->
  find q' (remove_first q l) = find q' l.
Proof.
  intros Hother. induction l as [|y l IH]; simpl; [reflexivity|].
  destruct (q y) eqn:Hy; simpl.
  - rewrite (Hother y Hy). reflexivity.
  - rewrite IH. reflexivity.
Qed.

Lemma find_remove_first (rows : list Chat) (cid : string) :
  List.NoDup (map chat_id rows) ->
  find (has_id cid) (remove_first (has_id cid) rows) = None.
Proof.
  induction rows as [|c rows IH]; simpl; intros Hnd; [reflexivity|].
  inversion Hnd as [|? ? Hnotin Hnd']; subst.
  destruct (has_id cid c) eqn:Hc; simpl.
  - apply find_None_existsb.
    destruct (existsb (has_id cid) rows) eqn:Hex; [|reflexivity].
    exfalso. apply existsb_exists in Hex. destruct Hex as (x & Hx & Hxid).
    apply Hnotin. apply has_id_true in Hc. apply has_id_true in Hxid.
    rewrite Hc, <- Hxid. apply in_map, Hx.
  - rewrite Hc. apply IH, Hnd'.
Qed.

Lemma existsb_false_not {A} (q : A -> bool) (l : list A) :
  existsb q l = false -> forall x, In x l -> q x = false.
Proof.
  intros Hex x Hx. destruct (q x) eqn:Hq; [|reflexivity].
  assert (existsb q l = true) by (apply existsb_exists; eauto). congruence.
Qed.

Section RemoveFacts.
Context `{Schema}.

(** When [remove] returns, it returns the chat that was stored under the
    id; that chat is gone while every other chat is found as before; and no
    message and no vote that refers to the chat is left, the other messages
    and votes being all there (where the stored chats have distinct ids). *)
Theorem remove_removes (s s' : Store) (cid : string) (c : Chat) :
  List.NoDup (map chat_id (chats (world s))) ->
  remove cid s = (Ok c, s') ->
  find_chat cid (chats (world s)) = Some c
  /\ getInfoById cid (world s') = (Ok None, world s')
  /\ (forall cid', cid' <> cid ->
        find_chat cid' (chats (world s')) = find_chat cid' (chats (world s)))
  /\ (forall m, In m (chatMessages (world s')) <->
                In m (chatMessages (world s)) /\ msg_chatId m <> cid)
  /\ (forall v, In v (chatMessageVote s') <->
                In v (chatMessageVote s) /\ vote_chatId v <> cid).
Proof.
  intros Hnd Hrun. unfold remove, chat_delete in Hrun.
  rewrite find_chat_has_id.
  destruct (find (has_id cid) (chats (world s))) as [c0|] eqn:Hfind; [|discriminate].
  assert (Hchats : forall w1,
             chats w1 = remove_first (has_id cid) (chats (world s)) ->
             getInfoById cid w1 = (Ok None, w1)
             /\ forall cid', cid' <> cid ->
                  find_chat cid' (chats w1) = find_chat cid' (chats (world s))).
  { intros w1 Hw1. split.
    - rewrite getInfoById_run, find_chat_has_id, Hw1.
      rewrite (find_remove_first _ _ Hnd). reflexivity.
    - intros cid' Hne. rewrite (find_chat_has_id cid' (chats w1)), Hw1.
      rewrite (find_chat_has_id cid' (chats (world s))).
      apply find_remove_first_other. intros x Hx.
      apply (has_id_other cid cid' _ Hne Hx). }
  destruct onDelete_chat.
  - injection Hrun as <- <-. split; [reflexivity|].
    cbn [world chatMessageVote].
    destruct (Hchats (set_chatMessages
                (List.filter (fun m => negb (refers_to_chat_m cid m))
                             (chatMessages (world s)))
                (set_chats (remove_first (has_id cid) (chats (world s))) (world s)))
                eq_refl) as [Hgone Hothers].
    split; [exact Hgone|]. split; [exact Hothers|].
    cbn [chatMessages set_chatMessages]. split.
    + intros m. rewrite filter_In, negb_true_iff. unfold refers_to_chat_m.
      rewrite String.eqb_neq. reflexivity.
    + intros v. rewrite filter_In, negb_true_iff. unfold refers_to_chat_v.
      rewrite String.eqb_neq. reflexivity.
  - destruct (existsb (refers_to_chat_m cid) (chatMessages (world s))
              || existsb (refers_to_chat_v cid) (chatMessageVote s)) eqn:Hdeps;
      [discriminate|].
    injection Hrun as <- <-. split; [reflexivity|].
    apply orb_false_iff in Hdeps. destruct Hdeps as [Hm Hv].
    cbn [world chatMessageVote set_world].
    destruct (Hchats (set_chats (remove_first (has_id cid) (chats (world s))) (world s))
                eq_refl) as [Hgone Hothers].
    split; [exact Hgone|]. split; [exact Hothers|].
    cbn [chatMessages set_chats]. split.
    + intros m. split; [|tauto]. intros Hin. split; [exact Hin|].
      pose proof (existsb_false_not _ _ Hm m Hin) as Hno.
      unfold refers_to_chat_m in Hno. apply String.eqb_neq, Hno.
    + intros v. split; [|tauto]. intros Hin. split; [exact Hin|].
      pose proof (existsb_false_not _ _ Hv v Hin) as Hno.
      unfold refers_to_chat_v in Hno. apply String.eqb_neq, Hno.
Qed.

(** The id of a removed chat is a cursor no more: a listing call that uses
    it throws the not-found error. *)
Theorem removed_chat_is_no_cursor (s s' : Store) (cid : string) (c : Chat)
    (p : PaginationParams) :
  List.NoDup (map chat_id (chats (world s))) ->
  remove cid s = (Ok c, s') ->
  cursor_used p = Some cid ->
  exists w2,
    getChatsByUserId p (world s') = (Throw (Error (not_found_message cid)), w2).
Proof.
  intros Hnd Hrun Hcursor.
  assert (Hgone : find_chat cid (chats (world s')) = None).
  { unfold remove, chat_delete in Hrun.
    destruct (find (has_id cid) (chats (world s))) as [c0|]; [|discriminate].
    rewrite find_chat_has_id.
    destruct onDelete_chat.
    - injection Hrun as _ <-. cbn [world chats set_chatMessages set_chats].
      apply find_remove_first, Hnd.
    - destruct (_ || _); [discriminate|].
      injection Hrun as _ <-. cbn [world set_world chats set_chats].
      apply find_remove_first, Hnd. }
  assert (Hk : resolve_cursor p (chats (world s')) = None).
  { unfold resolve_cursor. unfold cursor_used in Hcursor.
    destruct (truthy (startingAfter p)) as [s1|].
    - injection Hcursor as ->. rewrite Hgone. reflexivity.
    - rewrite Hcursor, Hgone. reflexivity. }
  destruct (getChatsByUserId_unresolved (world s') p Hk) as (s1 & Hs1 & _ & Hthrow).
  assert (s1 = cid) by congruence. subst s1.
  eexists. exact Hthrow.
Qed.
End RemoveFacts.

(** ** The operations on the sample data *)

Lemma create_then_getInfoById_witness :
  find_chat (chat_id c9) (chats sample_world) = None
  /\ @chat_refused plain_schema sample_world c9 = None
  /\ exists w',
       @create plain_schema c9 sample_world = (Ok c9, w')
       /\ getInfoById "c9" w' = (Ok (Some c9), w').
Proof.
  split; [reflexivity|]. split; [reflexivity|].
  destruct (@create_then_getInfoById plain_schema sample_world c9 eq_refl eq_refl)
    as (w' & Hrun & Hget & _).
  exists w'. split; [exact Hrun | exact Hget].
Defined.

Lemma chat_ids_stay_distinct_witness :
  List.NoDup (map chat_id (chats sample_world))
  /\ List.NoDup (map chat_id (chats (snd (@create plain_schema c9 sample_world)))).
Proof.
  split; [exact sample_ids_distinct|].
  exact (proj1 (@chat_ids_stay_distinct plain_schema sample_world sample_ids_distinct) c9).
Defined.

Lemma sample_chats_older (c : Chat) :
  In c (chats sample_world) -> chat_createdAt c < chat_createdAt c9.
Proof.
  simpl. intros Hc.
  repeat (destruct Hc as [<-|Hc]; [simpl; lia|]). destruct Hc.
Qed.

Lemma created_chat_heads_listing_witness :
  visible_to (id (call 2 None None)) (projectId (call 2 None None)) c9
  /\ exists w' page rest,
       @create plain_schema c9 sample_world = (Ok c9, w')
       /\ getChatsByUserId (call 2 None None) w' = (Ok page, w')
       /\ page_chats page = c9 :: rest.
Proof.
  assert (Hvis : visible_to (id (call 2 None None)) (projectId (call 2 None None)) c9)
    by (split; [reflexivity | left; reflexivity]).
  split; [exact Hvis|].
  assert (HL : 0 < limit (call 2 None None)) by (simpl; lia).
  exact (@created_chat_heads_listing plain_schema sample_world c9 (call 2 None None)
           eq_refl eq_refl sample_chats_older Hvis eq_refl HL).
Defined.

Lemma updateChatVisibleById_updates_witness :
  find_chat "c3" (chats sample_world) = Some c3
  /\ exists w',
       updateChatVisibleById "c3" PRIVATE sample_world
       = (Ok (with_visibility PRIVATE c3), w')
       /\ getInfoById "c3" w' = (Ok (Some (with_visibility PRIVATE c3)), w').
Proof.
  split; [reflexivity|].
  destruct (updateChatVisibleById_updates sample_world "c3" PRIVATE c3 eq_refl)
    as (w' & Hrun & Hget & _).
  exists w'. split; [exact Hrun | exact Hget].
Defined.

Lemma private_chat_is_hidden_witness :
  updateChatVisibleById "c6" PRIVATE sample_world
  = (Ok (with_visibility PRIVATE c6),
     snd (updateChatVisibleById "c6" PRIVATE sample_world))
  /\ getChatsByUserId (call 3 None None)
       (snd (updateChatVisibleById "c6" PRIVATE sample_world))
     = (Ok {| page_chats := [c8; c7; c5]; hasMore := true |},
        snd (updateChatVisibleById "c6" PRIVATE sample_world))
  /\ forall x, In x [c8; c7; c5] -> chat_id x <> "c6"%string.
Proof.
  assert (Hupd : updateChatVisibleById "c6" PRIVATE sample_world
                 = (Ok (with_visibility PRIVATE c6),
                    snd (updateChatVisibleById "c6" PRIVATE sample_world)))
    by reflexivity.
  assert (Hrun : getChatsByUserId (call 3 None None)
                   (snd (updateChatVisibleById "c6" PRIVATE sample_world))
                 = (Ok {| page_chats := [c8; c7; c5]; hasMore := true |},
                    snd (updateChatVisibleById "c6" PRIVATE sample_world)))
    by reflexivity.
  assert (Hother : id (call 3 None None) <> chat_userId (with_visibility PRIVATE c6))
    by discriminate.
  split; [exact Hupd|]. split; [exact Hrun|].
  exact (private_chat_is_hidden sample_world _ _ "c6" _ (call 3 None None) _
           sample_ids_distinct Hupd Hother Hrun).
Defined.

Lemma sample_messages_earlier (m : ChatMessages) :
  In m (chatMessages sample_world) -> msg_chatId m = msg_chatId m7 ->
  msg_createdAt m < msg_createdAt m7.
Proof.
  simpl. intros Hm _.
  repeat (destruct Hm as [<-|Hm]; [simpl; lia|]). destruct Hm.
Qed.

Lemma inserted_message_is_read_last_witness :
  @message_refused plain_schema sample_world m7 = None
  /\ exists w',
       @insertChatMessage plain_schema m7 sample_world = (Ok m7, w')
       /\ getMessagesByChatId "c1" w' = (Ok [m1; m2; m7], w').
Proof.
  split; [reflexivity|].
  destruct (@inserted_message_is_read_last plain_schema sample_world m7
              eq_refl eq_refl sample_messages_earlier) as (w' & Hrun & Hread & _).
  exists w'. split; [exact Hrun | exact Hread].
Defined.

Lemma remove_removes_witness :
  @remove plain_schema "c1" sample_store
  = (Ok c1, snd (@remove plain_schema "c1" sample_store))
  /\ getInfoById "c1" (world (snd (@remove plain_schema "c1" sample_store)))
     = (Ok None, world (snd (@remove plain_schema "c1" sample_store)))
  /\ forall m, In m (chatMessages (world (snd (@remove plain_schema "c1" sample_store))))
               <-> In m (chatMessages sample_world) /\ msg_chatId m <> "c1"%string.
Proof.
  assert (Hrun : @remove plain_schema "c1" sample_store
                 = (Ok c1, snd (@remove plain_schema "c1" sample_store)))
    by reflexivity.
  split; [exact Hrun|].
  destruct (@remove_removes plain_schema sample_store _ "c1" c1
              sample_ids_distinct Hrun) as (_ & Hgone & _ & Hmsgs & _).
  split; [exact Hgone | exact Hmsgs].
Defined.

Lemma removed_chat_is_no_cursor_witness :
  @remove plain_schema "c3" sample_store
  = (Ok c3, snd (@remove plain_schema "c3" sample_store))
  /\ cursor_used (call 2 (Some "c3"%string) None) = Some "c3"%string
  /\ exists w2,
       getChatsByUserId (call 2 (Some "c3"%string) None)
         (world (snd (@remove plain_schema "c3" sample_store)))
       = (Throw (Error "Chat with id c3 not found"), w2).
Proof.
  assert (Hrun : @remove plain_schema "c3" sample_store
                 = (Ok c3, snd (@remove plain_schema "c3" sample_store)))
    by reflexivity.
  split; [exact Hrun|]. split; [reflexivity|].
  exact (@removed_chat_is_no_cursor plain_schema sample_store _ "c3" c3
           (call 2 (Some "c3"%string) None) sample_ids_distinct Hrun eq_refl).
Defined.
